(** * mbed-connector-api-node: request builders and their completion handlers

    A shallow embedding of [lib/subscriptions.js] and of the endpoint and
    resource request builders, together with the deep merge of the [extend]
    package, with which every operation starts, and the pending-request
    table of the notification channel. *)

From Stdlib Require Import ZArith.
From stdpp Require Import base option list strings pretty gmap.

#[local] Set Warnings "-register-all".

Local Open Scope string_scope.
Local Open Scope list_scope.

(** ** JavaScript values *)

(** What [isPlainObject] and [Array.isArray] tell apart: object literals,
    arrays, and everything else that has properties (an [Error], a class
    instance). *)
Inductive kind : Type := Plain | Array | Instance.

(** Numbers are the integer-valued ones, which is all a status code needs.
    Functions are opaque and carry an identity.  An object is its kind and
    its enumerable properties in enumeration order; an array is an object of
    kind [Array] whose keys are the decimal indices. *)
Inductive value : Type :=
  | VUndefined
  | VNull
  | VBool (b : bool)
  | VNum (n : Z)
  | VStr (s : string)
  | VFun (f : nat)
  | VObj (k : kind) (props : list (string * value)).

Inductive exn : Type := TypeError | SyntaxError.

(** A computation either returns or throws. *)
Inductive result (A : Type) : Type :=
  | Ok (a : A)
  | Throw (e : exn).
Arguments Ok {A} a.
Arguments Throw {A} e.

Definition bind {A B : Type} (m : result A) (f : A -> result B) : result B :=
  match m with
  | Ok a => f a
  | Throw e => Throw e
  end.

Notation "x <- m ;; k" := (bind m (fun x => k))
  (at level 100, m at next level, right associativity).

(** One call of a function value with its actual arguments. *)
Inductive event : Type := Invoke (f : nat) (args : list value).

Definition trace : Type := list event.

Definition kind_eqb (a b : kind) : bool :=
  match a, b with
  | Plain, Plain | Array, Array | Instance, Instance => true
  | _, _ => false
  end.

(** [if (v)] *)
Definition truthy (v : value) : bool :=
  match v with
  | VUndefined | VNull => false
  | VBool b => b
  | VNum n => negb (n =? 0)%Z
  | VStr s => negb (String.eqb s "")
  | VFun _ | VObj _ _ => true
  end.

(** [typeof v === 'function'], [typeof v === 'string'], [typeof v === 'object'] *)
Definition typeof_function (v : value) : bool :=
  match v with VFun _ => true | _ => false end.

Definition typeof_string (v : value) : bool :=
  match v with VStr _ => true | _ => false end.

Definition typeof_object (v : value) : bool :=
  match v with VNull | VObj _ _ => true | _ => false end.

(** [v === n] for a number literal [n] *)
Definition strict_eq_num (v : value) (n : Z) : bool :=
  match v with VNum m => (m =? n)%Z | _ => false end.

(** [a || b] *)
Definition or_else (a b : value) : value := if truthy a then a else b.

Fixpoint assoc {A : Type} (name : string) (ps : list (string * A)) : option A :=
  match ps with
  | [] => None
  | (n, v) :: ps' => if String.eqb name n then Some v else assoc name ps'
  end.

(** [o[name] = v] on the property list of [o]: an existing key keeps its
    place, a new one goes last. *)
Fixpoint set_assoc {A : Type} (name : string) (v : A) (ps : list (string * A))
  : list (string * A) :=
  match ps with
  | [] => [(name, v)]
  | (n, w) :: ps' =>
      if String.eqb name n then (name, v) :: ps' else (n, w) :: set_assoc name v ps'
  end.

(** [o[name]] on the property list of [o] *)
Definition get (name : string) (ps : list (string * value)) : value :=
  default VUndefined (assoc name ps).

Fixpoint chars (s : string) : list string :=
  match s with
  | EmptyString => []
  | String c s' => String c EmptyString :: chars s'
  end.

(** Keys ["0"], ["1"], ... for the elements of an array or the characters of
    a string. *)
Definition indexed {A : Type} (xs : list A) : list (string * A) :=
  imap (fun i x => (pretty i, x)) xs.

Definition js_array (xs : list value) : value := VObj Array (indexed xs).

(** What [for (name in v)] runs over, with [v[name]] at each key. *)
Definition enum_props (v : value) : list (string * value) :=
  match v with
  | VObj _ ps => ps
  | VStr s => indexed (VStr <$> chars s)
  | _ => []
  end.

(** [v[name]] where [v] is known not to be [null] or [undefined] *)
Definition get_prop (v : value) (name : string) : value :=
  get name (enum_props v).

(** [v.name]: reading a property of [null] or [undefined] throws. *)
Definition member (v : value) (name : string) : result value :=
  match v with
  | VUndefined | VNull => Throw TypeError
  | _ => Ok (get_prop v name)
  end.

Definition set_prop (o : value) (name : string) (v : value) : value :=
  match o with
  | VObj k ps => VObj k (set_assoc name v ps)
  | _ => o
  end.

(** [callback(args)] *)
Definition call (callback : value) (args : list value) : result trace :=
  match callback with
  | VFun f => Ok [Invoke f args]
  | _ => Throw TypeError
  end.

(** ** String primitives used on the uri-list *)

Definition newline : Ascii.ascii := Ascii.ascii_of_nat 10.

Definition is_newline (c : Ascii.ascii) : bool := Ascii.eqb c newline.

(** [s.replace(/\n$/, '')]: without the [m] flag, [$] is the end of the
    input, so the only possible match is a newline in last position. *)
Fixpoint replace_trailing_newline (s : string) : string :=
  match s with
  | EmptyString => EmptyString
  | String c s' =>
      if is_newline c && String.eqb s' "" then EmptyString
      else String c (replace_trailing_newline s')
  end.

(** [s.split(/\n/)] *)
Fixpoint split_newline (s : string) : list string :=
  match s with
  | EmptyString => [EmptyString]
  | String c s' =>
      if is_newline c then EmptyString :: split_newline s'
      else match split_newline s' with
           | [] => [String c EmptyString]
           | x :: xs => String c x :: xs
           end
  end.

(** ** The deep merge of the [extend] package

    Both source files load [extend] from the npm package of that name; it
    is a dependency, not code of the repository.
    [extend(true, target, source1, source2, ...)] as the package defines it:
    for each source that is not [null] or [undefined], for each [name] in it,
    with [src = target[name]] and [copy = source[name]]:
    - if [copy] is a plain object or an array, [target[name]] becomes
      [extend(true, clone, copy)], where [clone] is [src] when [src] is of the
      same kind as [copy] and a new empty object or array otherwise;
    - otherwise, if [copy] is not [undefined], [target[name]] becomes [copy];
    - an [undefined] [copy] leaves [target] as it is.
    The test [target !== copy] of the package holds throughout, since every
    target here is an object made by the merge itself. *)

Definition mergeable (v : value) : bool :=
  match v with
  | VObj Plain _ | VObj Array _ => true
  | _ => false
  end.

(** [clone = src && isArray(src) ? src : []] and its plain-object twin *)
Definition clone_of (k : kind) (src : value) : list (string * value) :=
  match src with
  | VObj k' ps => if kind_eqb k k' then ps else []
  | _ => []
  end.

(** The body of the [for (name in options)] loop, given the recursive
    call. *)
Definition extend_step (deep : list (string * value) -> value -> value)
    (target : list (string * value)) (name : string) (copy : value)
  : list (string * value) :=
  let src := get name target in
  match copy with
  | VObj Plain _ => set_assoc name (deep (clone_of Plain src) copy) target
  | VObj Array _ => set_assoc name (deep (clone_of Array src) copy) target
  | VUndefined => target
  | _ => set_assoc name copy target
  end.

(** [extend(true, clone, copy)] for a plain object or an array [copy]. *)
Fixpoint extend_deep (clone : list (string * value)) (copy : value) {struct copy}
  : value :=
  match copy with
  | VObj k ps =>
      VObj k ((fix loop (ps : list (string * value)) (target : list (string * value)) :=
                 match ps with
                 | [] => target
                 | (name, c) :: ps' => loop ps' (extend_step extend_deep target name c)
                 end) ps clone)
  | _ => copy
  end.

(** One source merged into the top-level target. *)
Definition extend_source (target : list (string * value)) (source : value)
  : list (string * value) :=
  match source with
  | VUndefined | VNull => target
  | _ =>
      fold_left (fun t p => extend_step extend_deep t (fst p) (snd p))
        (enum_props source) target
  end.

(** [extend(true, {}, source1, source2, ...)] *)
Definition extend_true (sources : list value) : value :=
  VObj Plain (fold_left extend_source sources []).

(** ** The client object and its operations *)

(** The instance: [this.options] holds the defaults of every call. *)
Record mbedConnectorApi : Type := { options : value }.

(** [this.options] *)
Definition this_options (this : mbedConnectorApi) : value := options this.

(** [options = extend(true, {}, this.options, options || {})] *)
Definition merged_options (this : mbedConnectorApi) (options : value) : value :=
  extend_true [this_options this; or_else options (VObj Plain [])].

Section Operations.

(** The collaborators.  [makeRequest] performs the HTTP call and completes
    by calling the function it is given with [(error, data)]; [urljoin] is
    the url-join package; [JSON_parse] and [toString] are the built-ins. *)
Variable urljoin : list value -> value.
Variable JSON_parse : value -> result value.
Variable toString : value -> result value.
Variable makeRequest :
  value -> (value -> value -> result trace) -> value -> result trace.

(** *** lib/subscriptions.js *)

Definition getResourceSubscription (this : mbedConnectorApi)
    (endpoint resource options callback : value) : result trace :=
  let options := merged_options this options in
  let requestData := VObj Plain
    [ ("method", VStr "GET");
      ("url", urljoin [get_prop options "host"; get_prop options "restApiVersion";
                       VStr "subscriptions"; endpoint; resource]) ] in
  makeRequest requestData (fun error data =>
    if typeof_function callback then
      if truthy error then
        status <- member error "status";;
        if strict_eq_num status 404 then
          call callback [VNull; VBool false]
        else
          call callback [error]
      else
        call callback [VNull; VBool true]
    else Ok []) options.

Definition putResourceSubscription (this : mbedConnectorApi)
    (endpoint resource options callback : value) : result trace :=
  let options := merged_options this options in
  let requestData := VObj Plain
    [ ("method", VStr "PUT");
      ("url", urljoin [get_prop options "host"; get_prop options "restApiVersion";
                       VStr "subscriptions"; endpoint; resource]);
      ("headers", VObj Plain [("accept", VStr "application/json")]) ] in
  makeRequest requestData (fun error data =>
    if typeof_function callback then
      if truthy error then call callback [error]
      else call callback [VNull]
    else Ok []) options.

Definition deleteResourceSubscription (this : mbedConnectorApi)
    (endpoint resource options callback : value) : result trace :=
  let options := merged_options this options in
  let requestData := VObj Plain
    [ ("method", VStr "DELETE");
      ("url", urljoin [get_prop options "host"; get_prop options "restApiVersion";
                       VStr "subscriptions"; endpoint; resource]);
      ("headers", VObj Plain [("accept", VStr "application/json")]) ] in
  makeRequest requestData (fun error data =>
    if typeof_function callback then
      if truthy error then
        status <- member error "status";;
        if negb (strict_eq_num status 404) then call callback [error]
        else call callback []
      else call callback []
    else Ok []) options.

Definition getEndpointSubscriptions (this : mbedConnectorApi)
    (endpoint options callback : value) : result trace :=
  let options := merged_options this options in
  let requestData := VObj Plain
    [ ("method", VStr "GET");
      ("url", urljoin [get_prop options "host"; get_prop options "restApiVersion";
                       VStr "subscriptions"; endpoint]);
      ("headers", VObj Plain [("accept", VStr "text/uri-list")]) ] in
  makeRequest requestData (fun error data =>
    if typeof_function callback then
      if truthy error then
        status <- member error "status";;
        if strict_eq_num status 404 then
          call callback [VNull; js_array []]
        else
          call callback [error]
      else
        payload <- member data "payload";;
        match payload with
        | VStr s =>
            let uriListString := replace_trailing_newline s in
            call callback [VNull; js_array (VStr <$> split_newline uriListString)]
        | _ => Throw TypeError
        end
    else Ok []) options.

Definition deleteEndpointSubscriptions (this : mbedConnectorApi)
    (endpoint options callback : value) : result trace :=
  let options := merged_options this options in
  let requestData := VObj Plain
    [ ("method", VStr "DELETE");
      ("url", urljoin [get_prop options "host"; get_prop options "restApiVersion";
                       VStr "subscriptions"; endpoint]);
      ("headers", VObj Plain [("accept", VStr "application/json")]) ] in
  makeRequest requestData (fun error data =>
    if typeof_function callback then
      if truthy error then
        status <- member error "status";;
        if strict_eq_num status 404 then
          call callback [VNull; VBool false]
        else
          call callback [error]
      else
        call callback [VNull]
    else Ok []) options.

Definition deleteAllSubscriptions (this : mbedConnectorApi)
    (options callback : value) : result trace :=
  let options := merged_options this options in
  let requestData := VObj Plain
    [ ("method", VStr "DELETE");
      ("url", urljoin [get_prop options "host"; get_prop options "restApiVersion";
                       VStr "subscriptions"]);
      ("headers", VObj Plain [("accept", VStr "application/json")]) ] in
  makeRequest requestData (fun error data =>
    if typeof_function callback then
      if truthy error then call callback [error]
      else call callback [VNull]
    else Ok []) options.

Definition getPreSubscription (this : mbedConnectorApi)
    (options callback : value) : result trace :=
  let options := merged_options this options in
  let requestData := VObj Plain
    [ ("method", VStr "GET");
      ("url", urljoin [get_prop options "host"; get_prop options "restApiVersion";
                       VStr "subscriptions"]);
      ("headers", VObj Plain [("accept", VStr "application/json")]) ] in
  makeRequest requestData (fun error data =>
    if typeof_function callback then
      if truthy error then call callback [error]
      else
        payload <- member data "payload";;
        parsed <- JSON_parse payload;;
        call callback [VNull; parsed]
    else Ok []) options.

Definition putPreSubscription (this : mbedConnectorApi)
    (data options callback : value) : result trace :=
  let options := merged_options this options in
  let requestData := VObj Plain
    [ ("method", VStr "PUT");
      ("url", urljoin [get_prop options "host"; get_prop options "restApiVersion";
                       VStr "subscriptions"]);
      ("json", data) ] in
  makeRequest requestData (fun error data =>
    if typeof_function callback then
      if truthy error then call callback [error]
      else call callback [VNull]
    else Ok []) options.

(** *** The endpoint and resource requests *)

(** [if (typeof endpoint === 'object' && endpoint.name) endpoint = endpoint.name;] *)
Definition endpoint_name (endpoint : value) : result value :=
  if typeof_object endpoint then
    name <- member endpoint "name";;
    Ok (if truthy name then name else endpoint)
  else Ok endpoint.

Definition getEndpoints (this : mbedConnectorApi)
    (options callback : value) : result trace :=
  let options :=
    if typeof_string options then
      VObj Plain [("parameters", VObj Plain [("type", options)])]
    else options in
  let options := merged_options this options in
  let requestData := VObj Plain
    [ ("method", VStr "GET");
      ("url", urljoin [get_prop options "host"; get_prop options "restApiVersion";
                       VStr "endpoints"]);
      ("headers", VObj Plain [("accept", VStr "application/json")]) ] in
  let requestData :=
    if truthy (get_prop options "parameters") then
      set_prop requestData "qs" (get_prop options "parameters")
    else requestData in
  makeRequest requestData (fun error data =>
    if typeof_function callback then
      if truthy error then call callback [error]
      else
        payload <- member data "payload";;
        parsed <- JSON_parse payload;;
        call callback [VNull; parsed]
    else Ok []) options.

Definition getResources (this : mbedConnectorApi)
    (endpoint options callback : value) : result trace :=
  endpoint <- endpoint_name endpoint;;
  let options := merged_options this options in
  let requestData := VObj Plain
    [ ("method", VStr "GET");
      ("url", urljoin [get_prop options "host"; get_prop options "restApiVersion";
                       VStr "endpoints"; endpoint]);
      ("headers", VObj Plain [("accept", VStr "application/json")]) ] in
  makeRequest requestData (fun error data =>
    if typeof_function callback then
      if truthy error then call callback [error]
      else
        payload <- member data "payload";;
        parsed <- JSON_parse payload;;
        call callback [VNull; parsed]
    else Ok []) options.

Definition getResourceValue (this : mbedConnectorApi)
    (endpoint resource options callback : value) : result trace :=
  endpoint <- endpoint_name endpoint;;
  let options := merged_options this options in
  let requestData := VObj Plain
    [ ("method", VStr "GET");
      ("url", urljoin [get_prop options "host"; get_prop options "restApiVersion";
                       VStr "endpoints"; endpoint; resource]);
      ("qs", get_prop options "parameters");
      ("headers", VObj Plain [("accept", VStr "*/*")]) ] in
  makeRequest requestData (fun error data =>
    if typeof_function callback then
      if truthy error then call callback [error]
      else
        payload <- member data "payload";;
        call callback [VNull; payload]
    else Ok []) options.

Definition putResourceValue (this : mbedConnectorApi)
    (endpoint resource value options callback : value) : result trace :=
  endpoint <- endpoint_name endpoint;;
  let options := merged_options this options in
  body <- toString value;;
  let requestData := VObj Plain
    [ ("method", VStr "PUT");
      ("url", urljoin [get_prop options "host"; get_prop options "restApiVersion";
                       VStr "endpoints"; endpoint; resource]);
      ("qs", get_prop options "parameters");
      ("headers", VObj Plain [("accept", VStr "application/json")]);
      ("body", body) ] in
  makeRequest requestData (fun error data =>
    if typeof_function callback then
      if truthy error then call callback [error]
      else call callback [VNull]
    else Ok []) options.

Definition postResource (this : mbedConnectorApi)
    (endpoint resource value options callback : value) : result trace :=
  endpoint <- endpoint_name endpoint;;
  let options := merged_options this options in
  let requestData := VObj Plain
    [ ("method", VStr "POST");
      ("url", urljoin [get_prop options "host"; get_prop options "restApiVersion";
                       VStr "endpoints"; endpoint; resource]);
      ("qs", get_prop options "parameters");
      ("headers", VObj Plain [("accept", VStr "application/json")]) ] in
  requestData <-
    (if truthy value then
       body <- toString value;;
       Ok (set_prop requestData "body" body)
     else Ok requestData);;
  makeRequest requestData (fun error data =>
    if typeof_function callback then
      if truthy error then call callback [error]
      else call callback [VNull]
    else Ok []) options.

Definition deleteEndpoint (this : mbedConnectorApi)
    (endpoint options callback : value) : result trace :=
  endpoint <- endpoint_name endpoint;;
  let options := merged_options this options in
  let requestData := VObj Plain
    [ ("method", VStr "DELETE");
      ("url", urljoin [get_prop options "host"; get_prop options "restApiVersion";
                       VStr "endpoints"; endpoint]);
      ("qs", get_prop options "parameters");
      ("headers", VObj Plain [("accept", VStr "application/json")]) ] in
  makeRequest requestData (fun error data =>
    if typeof_function callback then
      if truthy error then call callback [error]
      else call callback [VNull]
    else Ok []) options.

(** *** All operations at once *)

Inductive operation : Type :=
  | GetResourceSubscription | PutResourceSubscription | DeleteResourceSubscription
  | GetEndpointSubscriptions | DeleteEndpointSubscriptions | DeleteAllSubscriptions
  | GetPreSubscription | PutPreSubscription
  | GetEndpoints | GetResources | GetResourceValue | PutResourceValue
  | PostResource | DeleteEndpoint.

(** The actual arguments of a call; an operation reads the ones it has. *)
Record arguments : Type := {
  arg_endpoint : value;
  arg_resource : value;
  arg_value : value;
  arg_options : value;
  arg_callback : value
}.

Definition invoke (op : operation) (this : mbedConnectorApi) (a : arguments)
  : result trace :=
  let '{| arg_endpoint := endpoint; arg_resource := resource; arg_value := value;
          arg_options := options; arg_callback := callback |} := a in
  match op with
  | GetResourceSubscription =>
      getResourceSubscription this endpoint resource options callback
  | PutResourceSubscription =>
      putResourceSubscription this endpoint resource options callback
  | DeleteResourceSubscription =>
      deleteResourceSubscription this endpoint resource options callback
  | GetEndpointSubscriptions => getEndpointSubscriptions this endpoint options callback
  | DeleteEndpointSubscriptions =>
      deleteEndpointSubscriptions this endpoint options callback
  | DeleteAllSubscriptions => deleteAllSubscriptions this options callback
  | GetPreSubscription => getPreSubscription this options callback
  | PutPreSubscription => putPreSubscription this value options callback
  | GetEndpoints => getEndpoints this options callback
  | GetResources => getResources this endpoint options callback
  | GetResourceValue => getResourceValue this endpoint resource options callback
  | PutResourceValue => putResourceValue this endpoint resource value options callback
  | PostResource => postResource this endpoint resource value options callback
  | DeleteEndpoint => deleteEndpoint this endpoint options callback
  end.

End Operations.

(** ** The same calls over a store of objects

    Objects live in a store and values refer to them by location, so that
    two references to one object see each other's writes.  This is the view
    in which "the call does not change [this.options]" has content.  A call
    ends when [makeRequest] returns; the handler runs later and is left out
    here, as nothing reads or writes it during the call. *)

Inductive sval : Type :=
  | SUndefined
  | SNull
  | SBool (b : bool)
  | SNum (n : Z)
  | SStr (s : string)
  | SFun (f : nat)
  | SRef (l : nat).

Record object : Type := { obj_kind : kind; obj_props : list (string * sval) }.

(** A new object takes the next free location. *)
Abbreviation heap := (list object).

Definition alloc (h : heap) (o : object) : heap * nat := (h ++ [o], length h).

Definition struthy (v : sval) : bool :=
  match v with
  | SUndefined | SNull => false
  | SBool b => b
  | SNum n => negb (n =? 0)%Z
  | SStr s => negb (String.eqb s "")
  | SFun _ | SRef _ => true
  end.

(** [a === b] *)
Definition sval_eqb (a b : sval) : bool :=
  match a, b with
  | SUndefined, SUndefined | SNull, SNull => true
  | SBool x, SBool y => Bool.eqb x y
  | SNum x, SNum y => (x =? y)%Z
  | SStr x, SStr y => String.eqb x y
  | SFun x, SFun y => Nat.eqb x y
  | SRef x, SRef y => Nat.eqb x y
  | _, _ => false
  end.

Definition props_of (h : heap) (v : sval) : list (string * sval) :=
  match v with
  | SRef l => from_option obj_props [] (h !! l)
  | SStr s => indexed (SStr <$> chars s)
  | _ => []
  end.

(** [v[name]] *)
Definition field (h : heap) (v : sval) (name : string) : sval :=
  default SUndefined (assoc name (props_of h v)).

(** [isPlainObject(v)] for [k = Plain], [Array.isArray(v)] for [k = Array] *)
Definition has_kind (h : heap) (k : kind) (v : sval) : bool :=
  match v with
  | SRef l => from_option (fun o => kind_eqb k (obj_kind o)) false (h !! l)
  | _ => false
  end.

(** [o[name] = v] for the object at [l] *)
Definition set_field (h : heap) (l : nat) (name : string) (v : sval) : heap :=
  match h !! l with
  | Some o => <[l := {| obj_kind := obj_kind o;
                        obj_props := set_assoc name v (obj_props o) |}]> h
  | None => h
  end.

(** [clone = src && isArray(src) ? src : []], and its plain-object twin:
    the location of [src] when it is of kind [k], a new empty object
    otherwise. *)
Definition clone_for (h : heap) (k : kind) (src : sval) : heap * nat :=
  match src with
  | SRef l => if has_kind h k src then (h, l)
              else alloc h {| obj_kind := k; obj_props := [] |}
  | _ => alloc h {| obj_kind := k; obj_props := [] |}
  end.

(** The body of [for (name in options)] for one [name], given the recursive
    call. *)
Definition extend_name (extend : heap -> nat -> list sval -> heap * bool)
    (target : nat) (options : sval) (name : string) (h : heap) : heap * bool :=
  let src := field h (SRef target) name in
  let copy := field h options name in
  if sval_eqb (SRef target) copy then (h, true)
  else if has_kind h Plain copy || has_kind h Array copy then
    let k := if has_kind h Array copy then Array else Plain in
    let '(h, clone) := clone_for h k src in
    let '(h, ok) := extend h clone [copy] in
    if ok then (set_field h target name (SRef clone), true) else (h, false)
  else
    match copy with
    | SUndefined => (h, true)
    | _ => (set_field h target name copy, true)
    end.

Fixpoint extend_names (extend : heap -> nat -> list sval -> heap * bool)
    (target : nat) (options : sval) (names : list string) (h : heap) : heap * bool :=
  match names with
  | [] => (h, true)
  | name :: names' =>
      let '(h, ok) := extend_name extend target options name h in
      if ok then extend_names extend target options names' h else (h, false)
  end.

(** The loop over the sources; [null] and [undefined] ones are skipped. *)
Fixpoint extend_sources (extend : heap -> nat -> list sval -> heap * bool)
    (target : nat) (sources : list sval) (h : heap) : heap * bool :=
  match sources with
  | [] => (h, true)
  | options :: sources' =>
      let '(h, ok) :=
        match options with
        | SUndefined | SNull => (h, true)
        | _ => extend_names extend target options (fst <$> props_of h options) h
        end in
      if ok then extend_sources extend target sources' h else (h, false)
  end.

(** [extend(true, target, sources...)] writing to the store.  The recursion
    of the package has no bound of its own (a cyclic source makes it run
    on); the fuel bounds its depth, and the store reached so far comes back
    with [false] when it runs out. *)
Fixpoint extend_st (fuel : nat) (h : heap) (target : nat) (sources : list sval)
  : heap * bool :=
  match fuel with
  | 0 => (h, false)
  | S fuel' => extend_sources (extend_st fuel') target sources h
  end.

(** Store-passing computations that may stop early (an exception, or the
    fuel of the merge running out); the store reached is kept either way. *)
Definition St (A : Type) : Type := heap -> heap * option A.

Definition st_ret {A : Type} (a : A) : St A := fun h => (h, Some a).

Definition st_bind {A B : Type} (m : St A) (f : A -> St B) : St B :=
  fun h => match m h with
           | (h', Some a) => f a h'
           | (h', None) => (h', None)
           end.

Notation "x <~ m ;; k" := (st_bind m (fun x => k))
  (at level 100, m at next level, right associativity).

Definition st_stop {A : Type} : St A := fun h => (h, None).

Definition st_read {A : Type} (f : heap -> A) : St A := fun h => (h, Some (f h)).

(** An object or array literal. *)
Definition st_new (k : kind) (props : list (string * sval)) : St sval :=
  fun h => let '(h', l) := alloc h {| obj_kind := k; obj_props := props |} in
           (h', Some (SRef l)).

Definition st_set (o : sval) (name : string) (v : sval) : St unit :=
  fun h => match o with
           | SRef l => (set_field h l name v, Some tt)
           | _ => (h, Some tt)
           end.

(** [options = extend(true, {}, this.options, options || {})]: the
    arguments are evaluated from left to right, then the merge runs. *)
Definition merged_options_st (fuel : nat) (this options : sval) : St sval :=
  target <~ st_new Plain [];;
  defaults <~ st_read (fun h => field h this "options");;
  options <~ (if struthy options then st_ret options else st_new Plain []);;
  fun h =>
    match target with
    | SRef t =>
        let '(h', ok) := extend_st fuel h t [defaults; options] in
        (h', if ok then Some target else None)
    | _ => (h, None)
    end.

Section StoreOperations.

Variable fuel : nat.
Variable urljoin : list sval -> sval.
Variable toString : heap -> sval -> option sval.
Variable makeRequest : sval -> sval -> St unit.

(** [urljoin(options.host, options.restApiVersion, segments...)] *)
Definition url_st (options : sval) (segments : list sval) : St sval :=
  st_read (fun h =>
    urljoin (field h options "host" :: field h options "restApiVersion" :: segments)).

Definition json_headers : St sval :=
  st_new Plain [("accept", SStr "application/json")].

Definition getResourceSubscription_st (this endpoint resource options : sval)
  : St unit :=
  options <~ merged_options_st fuel this options;;
  url <~ url_st options [SStr "subscriptions"; endpoint; resource];;
  requestData <~ st_new Plain [("method", SStr "GET"); ("url", url)];;
  makeRequest requestData options.

Definition putResourceSubscription_st (this endpoint resource options : sval)
  : St unit :=
  options <~ merged_options_st fuel this options;;
  url <~ url_st options [SStr "subscriptions"; endpoint; resource];;
  headers <~ json_headers;;
  requestData <~ st_new Plain
    [("method", SStr "PUT"); ("url", url); ("headers", headers)];;
  makeRequest requestData options.

Definition deleteResourceSubscription_st (this endpoint resource options : sval)
  : St unit :=
  options <~ merged_options_st fuel this options;;
  url <~ url_st options [SStr "subscriptions"; endpoint; resource];;
  headers <~ json_headers;;
  requestData <~ st_new Plain
    [("method", SStr "DELETE"); ("url", url); ("headers", headers)];;
  makeRequest requestData options.

Definition getEndpointSubscriptions_st (this endpoint options : sval) : St unit :=
  options <~ merged_options_st fuel this options;;
  url <~ url_st options [SStr "subscriptions"; endpoint];;
  headers <~ st_new Plain [("accept", SStr "text/uri-list")];;
  requestData <~ st_new Plain
    [("method", SStr "GET"); ("url", url); ("headers", headers)];;
  makeRequest requestData options.

Definition deleteEndpointSubscriptions_st (this endpoint options : sval) : St unit :=
  options <~ merged_options_st fuel this options;;
  url <~ url_st options [SStr "subscriptions"; endpoint];;
  headers <~ json_headers;;
  requestData <~ st_new Plain
    [("method", SStr "DELETE"); ("url", url); ("headers", headers)];;
  makeRequest requestData options.

Definition deleteAllSubscriptions_st (this options : sval) : St unit :=
  options <~ merged_options_st fuel this options;;
  url <~ url_st options [SStr "subscriptions"];;
  headers <~ json_headers;;
  requestData <~ st_new Plain
    [("method", SStr "DELETE"); ("url", url); ("headers", headers)];;
  makeRequest requestData options.

Definition getPreSubscription_st (this options : sval) : St unit :=
  options <~ merged_options_st fuel this options;;
  url <~ url_st options [SStr "subscriptions"];;
  headers <~ json_headers;;
  requestData <~ st_new Plain
    [("method", SStr "GET"); ("url", url); ("headers", headers)];;
  makeRequest requestData options.

Definition putPreSubscription_st (this data options : sval) : St unit :=
  options <~ merged_options_st fuel this options;;
  url <~ url_st options [SStr "subscriptions"];;
  requestData <~ st_new Plain
    [("method", SStr "PUT"); ("url", url); ("json", data)];;
  makeRequest requestData options.

(** [if (typeof endpoint === 'object' && endpoint.name) endpoint = endpoint.name;] *)
Definition endpoint_name_st (endpoint : sval) : St sval :=
  match endpoint with
  | SNull => st_stop
  | SRef _ =>
      name <~ st_read (fun h => field h endpoint "name");;
      st_ret (if struthy name then name else endpoint)
  | _ => st_ret endpoint
  end.

Definition getEndpoints_st (this options : sval) : St unit :=
  options <~
    (match options with
     | SStr _ =>
         parameters <~ st_new Plain [("type", options)];;
         st_new Plain [("parameters", parameters)]
     | _ => st_ret options
     end);;
  options <~ merged_options_st fuel this options;;
  url <~ url_st options [SStr "endpoints"];;
  headers <~ json_headers;;
  requestData <~ st_new Plain
    [("method", SStr "GET"); ("url", url); ("headers", headers)];;
  parameters <~ st_read (fun h => field h options "parameters");;
  _ <~ (if struthy parameters then st_set requestData "qs" parameters
        else st_ret tt);;
  makeRequest requestData options.

Definition getResources_st (this endpoint options : sval) : St unit :=
  endpoint <~ endpoint_name_st endpoint;;
  options <~ merged_options_st fuel this options;;
  url <~ url_st options [SStr "endpoints"; endpoint];;
  headers <~ json_headers;;
  requestData <~ st_new Plain
    [("method", SStr "GET"); ("url", url); ("headers", headers)];;
  makeRequest requestData options.

Definition getResourceValue_st (this endpoint resource options : sval) : St unit :=
  endpoint <~ endpoint_name_st endpoint;;
  options <~ merged_options_st fuel this options;;
  url <~ url_st options [SStr "endpoints"; endpoint; resource];;
  qs <~ st_read (fun h => field h options "parameters");;
  headers <~ st_new Plain [("accept", SStr "*/*")];;
  requestData <~ st_new Plain
    [("method", SStr "GET"); ("url", url); ("qs", qs); ("headers", headers)];;
  makeRequest requestData options.

Definition putResourceValue_st (this endpoint resource value options : sval)
  : St unit :=
  endpoint <~ endpoint_name_st endpoint;;
  options <~ merged_options_st fuel this options;;
  url <~ url_st options [SStr "endpoints"; endpoint; resource];;
  qs <~ st_read (fun h => field h options "parameters");;
  headers <~ json_headers;;
  body <~ (fun h => (h, toString h value));;
  requestData <~ st_new Plain
    [("method", SStr "PUT"); ("url", url); ("qs", qs); ("headers", headers);
     ("body", body)];;
  makeRequest requestData options.

Definition postResource_st (this endpoint resource value options : sval)
  : St unit :=
  endpoint <~ endpoint_name_st endpoint;;
  options <~ merged_options_st fuel this options;;
  url <~ url_st options [SStr "endpoints"; endpoint; resource];;
  qs <~ st_read (fun h => field h options "parameters");;
  headers <~ json_headers;;
  requestData <~ st_new Plain
    [("method", SStr "POST"); ("url", url); ("qs", qs); ("headers", headers)];;
  _ <~ (if struthy value then
          body <~ (fun h => (h, toString h value));;
          st_set requestData "body" body
        else st_ret tt);;
  makeRequest requestData options.

Definition deleteEndpoint_st (this endpoint options : sval) : St unit :=
  endpoint <~ endpoint_name_st endpoint;;
  options <~ merged_options_st fuel this options;;
  url <~ url_st options [SStr "endpoints"; endpoint];;
  qs <~ st_read (fun h => field h options "parameters");;
  headers <~ json_headers;;
  requestData <~ st_new Plain
    [("method", SStr "DELETE"); ("url", url); ("qs", qs); ("headers", headers)];;
  makeRequest requestData options.

(** The actual arguments of a call over the store. *)
Record sarguments : Type := {
  sarg_endpoint : sval;
  sarg_resource : sval;
  sarg_value : sval;
  sarg_options : sval
}.

Definition invoke_st (op : operation) (this : sval) (a : sarguments) : St unit :=
  let '{| sarg_endpoint := endpoint; sarg_resource := resource;
          sarg_value := value; sarg_options := options |} := a in
  match op with
  | GetResourceSubscription => getResourceSubscription_st this endpoint resource options
  | PutResourceSubscription => putResourceSubscription_st this endpoint resource options
  | DeleteResourceSubscription =>
      deleteResourceSubscription_st this endpoint resource options
  | GetEndpointSubscriptions => getEndpointSubscriptions_st this endpoint options
  | DeleteEndpointSubscriptions => deleteEndpointSubscriptions_st this endpoint options
  | DeleteAllSubscriptions => deleteAllSubscriptions_st this options
  | GetPreSubscription => getPreSubscription_st this options
  | PutPreSubscription => putPreSubscription_st this value options
  | GetEndpoints => getEndpoints_st this options
  | GetResources => getResources_st this endpoint options
  | GetResourceValue => getResourceValue_st this endpoint resource options
  | PutResourceValue => putResourceValue_st this endpoint resource value options
  | PostResource => postResource_st this endpoint resource value options
  | DeleteEndpoint => deleteEndpoint_st this endpoint options
  end.

End StoreOperations.

(** ** The pending-request table of the notification channel *)

(** Modelled from the spec: the state of the Pending-Request Correlator
    (section 4.4), whose code is not among the source files: the table from
    correlation token to waiting callback, and the calls made so far. *)
Record correlator : Type := {
  pending : gmap string nat;
  delivered : trace
}.

(** Modelled from the spec: [register(token, callback)] of the Pending-Request
    Correlator, not among the source files: it "stores a pending entry". *)
Definition register (token : string) (callback : nat) (c : correlator) : correlator :=
  {| pending := <[token := callback]> (pending c); delivered := delivered c |}.

(** Modelled from the spec: [resolve(token, result)] of the Pending-Request
    Correlator, not among the source files: it "removes and invokes the stored
    callback with result", and on an unknown token it "is a no-op". *)
Definition resolve (token : string) (r : value) (c : correlator) : correlator :=
  match pending c !! token with
  | Some callback =>
      {| pending := delete token (pending c);
         delivered := delivered c ++ [Invoke callback [r]] |}
  | None => c
  end.

(** ** Vocabulary of the statements *)

(** [makeRequest] completes with [(error, data)]: it calls the function it
    was given with these two arguments, and that is all it does. *)
Definition completes_with
    (makeRequest : value -> (value -> value -> result trace) -> value -> result trace)
    (error data : value) : Prop :=
  forall requestData callback options,
    makeRequest requestData callback options = callback error data.

(** The operation gets as far as its [makeRequest] call, whatever
    [makeRequest] is. *)
Definition issues_request urljoin JSON_parse toString
    (op : operation) (this : mbedConnectorApi) (a : arguments) : Prop :=
  exists requestData callback options,
    forall makeRequest,
      invoke urljoin JSON_parse toString makeRequest op this a
      = makeRequest requestData callback options.



(** An error object as [makeRequest] builds it: an [Error] with a [status]. *)
Definition http_error (status : Z) : value :=
  VObj Instance [("status", VNum status)].

Fixpoint has_newline (s : string) : bool :=
  match s with
  | EmptyString => false
  | String c s' => is_newline c || has_newline s'
  end.

(** [parts.join('\n')] *)
Fixpoint join_newline (parts : list string) : string :=
  match parts with
  | [] => EmptyString
  | [x] => x
  | x :: rest => x +:+ String newline (join_newline rest)
  end.

(** [v[k1][k2]...], with [undefined] once the path leaves the objects. *)
Definition lookup_path (path : list string) (v : value) : value :=
  fold_left get_prop path v.

(** Neither merged into nor skipped by the deep merge: stored as it is. *)
Definition leaf (v : value) : bool :=
  match v with
  | VUndefined => false
  | _ => negb (mergeable v)
  end.

(** What a value is, apart from the contents of a plain object or array. *)
Definition shape (v : value) : value :=
  match v with
  | VObj Plain _ => VObj Plain []
  | VObj Array _ => VObj Array []
  | _ => v
  end.

(** Both are plain objects, or both are arrays: the merge goes into [a]
    rather than replacing it. *)
Definition both_mergeable (a b : value) : bool :=
  match a, b with
  | VObj k _, VObj k' _ => mergeable b && kind_eqb k' k
  | _, _ => false
  end.

(** [a] and [b] are both plain objects or both arrays, and so are their
    values at each step of the path. *)
Fixpoint merged_along (path : list string) (a b : value) : Prop :=
  both_mergeable a b = true /\
  match path with
  | [] => True
  | name :: path' => merged_along path' (get_prop a name) (get_prop b name)
  end.

Definition keys (ps : list (string * value)) : list string := fst <$> ps.

(** No key occurs twice in an object, at any depth. *)
Fixpoint well_formed (v : value) : Prop :=
  match v with
  | VObj _ ps =>
      NoDup (keys ps) /\
      (fix all (ps : list (string * value)) : Prop :=
         match ps with
         | [] => True
         | (_, c) :: ps' => well_formed c /\ all ps'
         end) ps
  | _ => True
  end.

(** What [target[name]] holds after one step of the merge, from what it held
    before ([src]) and the source's value ([copy]). *)
Definition merged_value (src copy : value) : value :=
  match copy with
  | VObj Plain _ => extend_deep (clone_of Plain src) copy
  | VObj Array _ => extend_deep (clone_of Array src) copy
  | VUndefined => src
  | _ => copy
  end.

(** The [options] argument as the merge receives it: [getEndpoints] turns a
    string into a type filter first. *)
Definition per_call_options (op : operation) (a : arguments) : value :=
  match op with
  | GetEndpoints =>
      if typeof_string (arg_options a) then
        VObj Plain [("parameters", VObj Plain [("type", arg_options a)])]
      else arg_options a
  | _ => arg_options a
  end.

(** The value that [v] stands for in the store [h], read to the given
    depth: how the store and the values above correspond. *)
Fixpoint reify (depth : nat) (h : heap) (v : sval) : value :=
  match v with
  | SUndefined => VUndefined
  | SNull => VNull
  | SBool b => VBool b
  | SNum n => VNum n
  | SStr s => VStr s
  | SFun f => VFun f
  | SRef l =>
      match depth, h !! l with
      | S depth', Some o =>
          VObj (obj_kind o)
            ((fun p => (fst p, reify depth' h (snd p))) <$> obj_props o)
      | _, _ => VUndefined
      end
  end.

(** The two stores hold the same objects at the locations below [n]. *)
Definition agree_below (n : nat) (h h' : heap) : Prop :=
  forall l, l < n -> h' !! l = h !! l.

(** None of these properties refers to a plain object or array that lies
    below [n]. *)
Definition props_ok (n : nat) (h : heap) (ps : list (string * sval)) : Prop :=
  forall name l, (name, SRef l) ∈ ps -> l < n ->
    has_kind h Plain (SRef l) || has_kind h Array (SRef l) = false.

(** The objects from [n] on refer to plain objects and arrays from [n] on
    only: what a merge may choose as its [clone] is never older than [n]. *)
Definition owned_closed (n : nat) (h : heap) : Prop :=
  forall l o, n <= l -> h !! l = Some o -> props_ok n h (obj_props o).

(** From [h] to [h']: nothing below [n] was written, nothing was removed,
    and [owned_closed] still holds. *)
Definition grows (n : nat) (h h' : heap) : Prop :=
  agree_below n h h' /\ length h <= length h' /\ owned_closed n h'.

(** The recursive call writes above [n] only, whenever its target is above
    [n]. *)
Definition writes_above (n : nat)
    (extend : heap -> nat -> list sval -> heap * bool) : Prop :=
  forall h target sources,
    n <= length h -> n <= target -> owned_closed n h ->
    grows n h (extend h target sources).1.

(** A computation over the store that leaves the locations below [n] that
    satisfy [P] as they are, and whose result satisfies [Q]. *)
Definition preserves {A : Type} (P : nat -> Prop) (n : nat) (Q : A -> Prop)
    (m : St A) : Prop :=
  forall h h' r, n <= length h -> m h = (h', r) ->
    (forall l, l < n -> P l -> h' !! l = h !! l)
    /\ length h <= length h'
    /\ (forall a, r = Some a -> Q a).

(** The same without a word on the result or on the size of the store. *)
Definition keeps {A : Type} (P : nat -> Prop) (n : nat) (m : St A) : Prop :=
  forall h h' r, n <= length h -> m h = (h', r) ->
    forall l, l < n -> P l -> h' !! l = h !! l.

(** A reference to an object made after the first [n]. *)
Definition fresh (n : nat) (v : sval) : Prop := exists l, v = SRef l /\ n <= l.

(** The operations that start with
    [if (typeof endpoint === 'object' && endpoint.name) endpoint = endpoint.name;] *)
Definition normalises_endpoint (op : operation) : bool :=
  match op with
  | GetResources | GetResourceValue | PutResourceValue | PostResource
  | DeleteEndpoint => true
  | _ => false
  end.




(** The operations whose request always has a [qs]. *)
Definition sends_query (op : operation) : bool :=
  match op with
  | GetResourceValue | PutResourceValue | PostResource | DeleteEndpoint => true
  | _ => false
  end.

(** The same call with another [endpoint] argument. *)
Definition with_endpoint (a : arguments) (endpoint : value) : arguments :=
  {| arg_endpoint := endpoint; arg_resource := arg_resource a;
     arg_value := arg_value a; arg_options := arg_options a;
     arg_callback := arg_callback a |}.

(** ** Sample collaborators and inputs *)

(** A [makeRequest] that completes at once with [(error, data)]. *)
Definition completing (error data : value)
  : value -> (value -> value -> result trace) -> value -> result trace :=
  fun _ callback _ => callback error data.

Definition segment (v : value) : string :=
  match v with VStr s => s | _ => "" end.

Fixpoint join_slash (parts : list string) : string :=
  match parts with
  | [] => ""
  | [x] => x
  | x :: rest => x +:+ "/" +:+ join_slash rest
  end.

Definition sample_urljoin (segments : list value) : value :=
  VStr (join_slash (segment <$> segments)).

Definition sample_toString (v : value) : result value :=
  match v with
  | VUndefined | VNull => Throw TypeError
  | VStr s => Ok v
  | VBool true => Ok (VStr "true")
  | VBool false => Ok (VStr "false")
  | VNum n => Ok (VStr (pretty n))
  | _ => Ok (VStr "[object Object]")
  end.

(** A parser that accepts the empty array only. *)
Definition sample_JSON_parse (v : value) : result value :=
  match v with
  | VStr "[]" => Ok (js_array [])
  | _ => Throw SyntaxError
  end.

(** A [makeRequest] over the store that queues the request. *)
Definition sample_makeRequest_st (requestData options : sval) : St unit :=
  _ <~ st_new Instance [("request", requestData); ("options", options)];;
  st_ret tt.

Definition sample_urljoin_st (segments : list sval) : sval :=
  SStr (join_slash ((fun v => match v with SStr s => s | _ => "" end) <$> segments)).

Definition sample_toString_st (h : heap) (v : sval) : option sval :=
  match v with
  | SUndefined | SNull => None
  | SStr _ => Some v
  | _ => Some (SStr "[object Object]")
  end.

(** The instance at location 0 and its options at location 1, with a nested
    plain object at location 2. *)
Definition sample_heap : heap :=
  [ {| obj_kind := Instance; obj_props := [("options", SRef 1)] |};
    {| obj_kind := Plain;
       obj_props := [ ("host", SStr "https://api.connector.mbed.com");
                      ("restApiVersion", SStr "v2");
                      ("parameters", SRef 2) ] |};
    {| obj_kind := Plain; obj_props := [("cacheOnly", SBool true)] |} ].

Definition sample_api : mbedConnectorApi :=
  {| options := VObj Plain [ ("host", VStr "https://api.connector.mbed.com");
                             ("restApiVersion", VStr "v2");
                             ("parameters", VObj Plain [("cacheOnly", VBool true)]) ] |}.

Definition sample_arguments (callback : value) : arguments :=
  {| arg_endpoint := VStr "dev1"; arg_resource := VStr "/3/0/1";
     arg_value := VStr "1"; arg_options := VUndefined; arg_callback := callback |}.

(** * Properties *)

(** ** Reading properties *)

Lemma truthy_of_status error n :
  get_prop error "status" = VNum n -> truthy error = true.
Proof.
  destruct error as [| |b|m|s|f|k ps]; try discriminate; try reflexivity.
  unfold get_prop, get; simpl. intros H.
  destruct (assoc "status" (indexed (VStr <$> chars s))) as [v|] eqn:E; [|discriminate].
  destruct s; [discriminate | reflexivity].
Qed.

Lemma member_truthy error name :
  truthy error = true -> member error name = Ok (get_prop error name).
Proof. destruct error; simpl; congruence. Qed.

Lemma strict_eq_num_true v n : strict_eq_num v n = true <-> v = VNum n.
Proof.
  destruct v; simpl; try (split; congruence).
  rewrite Z.eqb_eq. split; congruence.
Qed.

Lemma strict_eq_num_false v n : strict_eq_num v n = false <-> v <> VNum n.
Proof.
  rewrite <- strict_eq_num_true. destruct (strict_eq_num v n); split; congruence.
Qed.

(** Runs a handler on an error that is known to be one. *)
Ltac run_handler Hdone Herr :=
  rewrite Hdone; cbn [typeof_function];
  rewrite ?Herr; rewrite ?(member_truthy _ _ Herr); cbn [bind].

Section Completion.

Variable urljoin : list value -> value.
Variable JSON_parse : value -> result value.
Variable toString : value -> result value.
Variable makeRequest :
  value -> (value -> value -> result trace) -> value -> result trace.
Variables (error data : value).
Hypothesis completion : completes_with makeRequest error data.

Variable this : mbedConnectorApi.
Variables (endpoint resource options : value) (f : nat).

Lemma getResourceSubscription_not_found :
  get_prop error "status" = VNum 404 ->
  getResourceSubscription urljoin makeRequest this endpoint resource options (VFun f)
  = Ok [Invoke f [VNull; VBool false]].
Proof.
  intros H. pose proof (truthy_of_status _ _ H) as Ht.
  unfold getResourceSubscription. run_handler completion Ht.
  rewrite H. reflexivity.
Qed.

Lemma getResourceSubscription_error :
  truthy error = true -> get_prop error "status" <> VNum 404 ->
  getResourceSubscription urljoin makeRequest this endpoint resource options (VFun f)
  = Ok [Invoke f [error]].
Proof.
  intros Ht H. unfold getResourceSubscription. run_handler completion Ht.
  apply strict_eq_num_false in H. rewrite H. reflexivity.
Qed.

Lemma getResourceSubscription_subscribed :
  truthy error = false ->
  getResourceSubscription urljoin makeRequest this endpoint resource options (VFun f)
  = Ok [Invoke f [VNull; VBool true]].
Proof.
  intros Ht. unfold getResourceSubscription. run_handler completion Ht. reflexivity.
Qed.

Lemma getEndpointSubscriptions_not_found :
  get_prop error "status" = VNum 404 ->
  getEndpointSubscriptions urljoin makeRequest this endpoint options (VFun f)
  = Ok [Invoke f [VNull; js_array []]].
Proof.
  intros H. pose proof (truthy_of_status _ _ H) as Ht.
  unfold getEndpointSubscriptions. run_handler completion Ht.
  rewrite H. reflexivity.
Qed.

Lemma getEndpointSubscriptions_error :
  truthy error = true -> get_prop error "status" <> VNum 404 ->
  getEndpointSubscriptions urljoin makeRequest this endpoint options (VFun f)
  = Ok [Invoke f [error]].
Proof.
  intros Ht H. unfold getEndpointSubscriptions. run_handler completion Ht.
  apply strict_eq_num_false in H. rewrite H. reflexivity.
Qed.

Lemma getEndpointSubscriptions_list s :
  truthy error = false -> member data "payload" = Ok (VStr s) ->
  getEndpointSubscriptions urljoin makeRequest this endpoint options (VFun f)
  = Ok [Invoke f [VNull;
                  js_array (VStr <$> split_newline (replace_trailing_newline s))]].
Proof.
  intros Ht H. unfold getEndpointSubscriptions. run_handler completion Ht.
  rewrite H. reflexivity.
Qed.

Lemma deleteResourceSubscription_not_found :
  get_prop error "status" = VNum 404 ->
  deleteResourceSubscription urljoin makeRequest this endpoint resource options (VFun f)
  = Ok [Invoke f []].
Proof.
  intros H. pose proof (truthy_of_status _ _ H) as Ht.
  unfold deleteResourceSubscription. run_handler completion Ht.
  rewrite H. reflexivity.
Qed.


Lemma deleteEndpointSubscriptions_not_found :
  get_prop error "status" = VNum 404 ->
  deleteEndpointSubscriptions urljoin makeRequest this endpoint options (VFun f)
  = Ok [Invoke f [VNull; VBool false]].
Proof.
  intros H. pose proof (truthy_of_status _ _ H) as Ht.
  unfold deleteEndpointSubscriptions. run_handler completion Ht.
  rewrite H. reflexivity.
Qed.


Lemma putResourceSubscription_error :
  truthy error = true ->
  putResourceSubscription urljoin makeRequest this endpoint resource options (VFun f)
  = Ok [Invoke f [error]].
Proof. intros Ht. unfold putResourceSubscription. run_handler completion Ht. reflexivity. Qed.

Lemma deleteAllSubscriptions_error :
  truthy error = true ->
  deleteAllSubscriptions urljoin makeRequest this options (VFun f)
  = Ok [Invoke f [error]].
Proof. intros Ht. unfold deleteAllSubscriptions. run_handler completion Ht. reflexivity. Qed.




End Completion.

Section EveryOperation.

Variable urljoin : list value -> value.
Variable JSON_parse : value -> result value.
Variable toString : value -> result value.
Variable makeRequest :
  value -> (value -> value -> result trace) -> value -> result trace.
Variables (error data : value).
Hypothesis completion : completes_with makeRequest error data.

Variable this : mbedConnectorApi.
Variable f : nat.



End EveryOperation.

(** From "the request is issued" to the statements before [makeRequest]
    having gone through: the same call with a [makeRequest] that does
    nothing returns. *)
Lemma issues_request_returns urljoin JSON_parse toString op this a :
  issues_request urljoin JSON_parse toString op this a ->
  invoke urljoin JSON_parse toString (fun _ _ _ => Ok []) op this a = Ok [].
Proof. intros (rd & k & o & Hreq). now rewrite Hreq. Qed.

Ltac unfold_operations :=
  unfold getResourceSubscription, putResourceSubscription,
    deleteResourceSubscription, getEndpointSubscriptions,
    deleteEndpointSubscriptions, deleteAllSubscriptions, getPreSubscription,
    putPreSubscription, getEndpoints, getResources, getResourceValue,
    putResourceValue, postResource, deleteEndpoint in *.

(** Goes through the statements before [makeRequest], given in [H0] that
    they do not throw. *)
Ltac reach_request H0 :=
  cbn [invoke] in *; unfold_operations; unfold bind in *;
  repeat match type of H0 with
         | context [match ?x with _ => _ end] => destruct x eqn:?; try discriminate H0
         end.

(** Without a function as callback, a completion does nothing. *)
Lemma invoke_without_callback
    urljoin JSON_parse toString makeRequest op this a error data :
  typeof_function (arg_callback a) = false ->
  issues_request urljoin JSON_parse toString op this a ->
  completes_with makeRequest error data ->
  invoke urljoin JSON_parse toString makeRequest op this a = Ok [].
Proof.
  intros Hcb Hreq Hdone. apply issues_request_returns in Hreq.
  destruct a as [ep res v opts cb]. cbn [arg_callback] in Hcb.
  destruct op; reach_request Hreq; rewrite Hdone, Hcb; reflexivity.
Qed.

(** A call either gets as far as its [makeRequest] call or throws before
    it, whatever [makeRequest] is; there is no third way. *)
Lemma issues_request_or_throw urljoin JSON_parse toString op this a :
  issues_request urljoin JSON_parse toString op this a
  \/ exists e,
       forall makeRequest,
         invoke urljoin JSON_parse toString makeRequest op this a = Throw e.
Proof.
  destruct a as [ep res v opts cb]. unfold issues_request.
  destruct op; cbn [invoke]; unfold_operations; unfold bind;
    repeat match goal with
           | |- context [match ?x with _ => _ end] => destruct x eqn:?
           end;
    first [ left; do 3 eexists; intros mk; reflexivity
          | right; eexists; intros mk; reflexivity ].
Qed.

(** ** The 404 branches, operation by operation *)

(** C1. When the [makeRequest] call of [getResourceSubscription] fails with
    an error whose status is 404, the callback is called with
    [(null, false)]; an error with any other status is passed on as the
    first argument; on success the callback receives [(null, true)]. *)
Theorem getResourceSubscription_completion
    urljoin makeRequest this endpoint resource options f error data :
  completes_with makeRequest error data ->
  let outcome :=
    getResourceSubscription urljoin makeRequest this endpoint resource options (VFun f) in
  (get_prop error "status" = VNum 404 -> outcome = Ok [Invoke f [VNull; VBool false]])
  /\ (truthy error = true -> get_prop error "status" <> VNum 404 ->
      outcome = Ok [Invoke f [error]])
  /\ (truthy error = false -> outcome = Ok [Invoke f [VNull; VBool true]]).
Proof.
  intros Hdone outcome. subst outcome. repeat split.
  - now apply getResourceSubscription_not_found with (error := error) (data := data).
  - now apply getResourceSubscription_error with (error := error) (data := data).
  - now apply getResourceSubscription_subscribed with (error := error) (data := data).
Qed.

Lemma getResourceSubscription_completion_witness :
  getResourceSubscription sample_urljoin (completing (http_error 404) VUndefined)
    sample_api (VStr "dev1") (VStr "/3/0/1") VUndefined (VFun 0)
  = Ok [Invoke 0 [VNull; VBool false]]
  /\ getResourceSubscription sample_urljoin (completing (http_error 500) VUndefined)
       sample_api (VStr "dev1") (VStr "/3/0/1") VUndefined (VFun 0)
     = Ok [Invoke 0 [http_error 500]]
  /\ getResourceSubscription sample_urljoin (completing VNull (VObj Plain []))
       sample_api (VStr "dev1") (VStr "/3/0/1") VUndefined (VFun 0)
     = Ok [Invoke 0 [VNull; VBool true]].
Proof.
  split; [| split].
  - apply (getResourceSubscription_completion sample_urljoin
             (completing (http_error 404) VUndefined) sample_api (VStr "dev1")
             (VStr "/3/0/1") VUndefined 0 (http_error 404) VUndefined).
    + intros rd cb o. reflexivity.
    + reflexivity.
  - apply (getResourceSubscription_completion sample_urljoin
             (completing (http_error 500) VUndefined) sample_api (VStr "dev1")
             (VStr "/3/0/1") VUndefined 0 (http_error 500) VUndefined).
    + intros rd cb o. reflexivity.
    + reflexivity.
    + discriminate.
  - apply (getResourceSubscription_completion sample_urljoin
             (completing VNull (VObj Plain [])) sample_api (VStr "dev1")
             (VStr "/3/0/1") VUndefined 0 VNull (VObj Plain [])).
    + intros rd cb o. reflexivity.
    + reflexivity.
Defined.

(** C2. When the [makeRequest] call of [getEndpointSubscriptions] fails with
    an error whose status is 404, the callback is called with [(null, [])];
    an error with any other status is passed on as an error. *)
Theorem getEndpointSubscriptions_completion
    urljoin makeRequest this endpoint options f error data :
  completes_with makeRequest error data ->
  let outcome :=
    getEndpointSubscriptions urljoin makeRequest this endpoint options (VFun f) in
  (get_prop error "status" = VNum 404 -> outcome = Ok [Invoke f [VNull; js_array []]])
  /\ (truthy error = true -> get_prop error "status" <> VNum 404 ->
      outcome = Ok [Invoke f [error]]).
Proof.
  intros Hdone outcome. subst outcome. split.
  - now apply getEndpointSubscriptions_not_found with (error := error) (data := data).
  - now apply getEndpointSubscriptions_error with (error := error) (data := data).
Qed.

Lemma getEndpointSubscriptions_completion_witness :
  getEndpointSubscriptions sample_urljoin (completing (http_error 404) VUndefined)
    sample_api (VStr "dev1") VUndefined (VFun 0)
  = Ok [Invoke 0 [VNull; js_array []]]
  /\ getEndpointSubscriptions sample_urljoin (completing (http_error 401) VUndefined)
       sample_api (VStr "dev1") VUndefined (VFun 0)
     = Ok [Invoke 0 [http_error 401]].
Proof.
  split.
  - apply (getEndpointSubscriptions_completion sample_urljoin
             (completing (http_error 404) VUndefined) sample_api (VStr "dev1")
             VUndefined 0 (http_error 404) VUndefined).
    + intros rd cb o. reflexivity.
    + reflexivity.
  - apply (getEndpointSubscriptions_completion sample_urljoin
             (completing (http_error 401) VUndefined) sample_api (VStr "dev1")
             VUndefined 0 (http_error 401) VUndefined).
    + intros rd cb o. reflexivity.
    + reflexivity.
    + discriminate.
Defined.



(** The operations that take no endpoint object always get as far as their
    [makeRequest] call. *)
Lemma issues_request_without_endpoint_name urljoin JSON_parse toString op this a :
  match op with
  | GetResources | GetResourceValue | PutResourceValue | PostResource
  | DeleteEndpoint => False
  | _ => True
  end ->
  issues_request urljoin JSON_parse toString op this a.
Proof.
  destruct a as [ep res v opts cb].
  destruct op; intros []; unfold issues_request; cbn [invoke];
    do 3 eexists; intros mk; reflexivity.
Qed.



(** C4. A 404 from [makeRequest] means something else from one operation to
    the next: [deleteResourceSubscription] reports plain success (the
    callback is called with no error), [getResourceSubscription] and
    [deleteEndpointSubscriptions] yield [(null, false)],
    [getEndpointSubscriptions] yields [(null, [])], and
    [putResourceSubscription] and [deleteAllSubscriptions] pass the error on
    unchanged. *)
Theorem not_found_per_operation
    urljoin makeRequest this endpoint resource options f error data :
  completes_with makeRequest error data ->
  get_prop error "status" = VNum 404 ->
  deleteResourceSubscription urljoin makeRequest this endpoint resource options (VFun f)
  = Ok [Invoke f []]
  /\ getResourceSubscription urljoin makeRequest this endpoint resource options (VFun f)
     = Ok [Invoke f [VNull; VBool false]]
  /\ deleteEndpointSubscriptions urljoin makeRequest this endpoint options (VFun f)
     = Ok [Invoke f [VNull; VBool false]]
  /\ getEndpointSubscriptions urljoin makeRequest this endpoint options (VFun f)
     = Ok [Invoke f [VNull; js_array []]]
  /\ putResourceSubscription urljoin makeRequest this endpoint resource options (VFun f)
     = Ok [Invoke f [error]]
  /\ deleteAllSubscriptions urljoin makeRequest this options (VFun f)
     = Ok [Invoke f [error]].
Proof.
  intros Hdone Hs. pose proof (truthy_of_status _ _ Hs) as Ht.
  repeat split.
  - now apply deleteResourceSubscription_not_found with (error := error) (data := data).
  - now apply getResourceSubscription_not_found with (error := error) (data := data).
  - now apply deleteEndpointSubscriptions_not_found with (error := error) (data := data).
  - now apply getEndpointSubscriptions_not_found with (error := error) (data := data).
  - now apply putResourceSubscription_error with (error := error) (data := data).
  - now apply deleteAllSubscriptions_error with (error := error) (data := data).
Qed.

Lemma not_found_per_operation_witness :
  let mk := completing (http_error 404) VUndefined in
  deleteResourceSubscription sample_urljoin mk sample_api (VStr "dev1") (VStr "/3/0/1")
    VUndefined (VFun 0)
  = Ok [Invoke 0 []]
  /\ getResourceSubscription sample_urljoin mk sample_api (VStr "dev1") (VStr "/3/0/1")
       VUndefined (VFun 0)
     = Ok [Invoke 0 [VNull; VBool false]]
  /\ deleteEndpointSubscriptions sample_urljoin mk sample_api (VStr "dev1")
       VUndefined (VFun 0)
     = Ok [Invoke 0 [VNull; VBool false]]
  /\ getEndpointSubscriptions sample_urljoin mk sample_api (VStr "dev1")
       VUndefined (VFun 0)
     = Ok [Invoke 0 [VNull; js_array []]]
  /\ putResourceSubscription sample_urljoin mk sample_api (VStr "dev1") (VStr "/3/0/1")
       VUndefined (VFun 0)
     = Ok [Invoke 0 [http_error 404]]
  /\ deleteAllSubscriptions sample_urljoin mk sample_api VUndefined (VFun 0)
     = Ok [Invoke 0 [http_error 404]].
Proof.
  apply (not_found_per_operation sample_urljoin
           (completing (http_error 404) VUndefined) sample_api (VStr "dev1")
           (VStr "/3/0/1") VUndefined 0 (http_error 404) VUndefined).
  - intros rd cb o. reflexivity.
  - reflexivity.
Defined.




(** The request that [getEndpoints] issues for a type filter, and the
    endpoints it hands to the callback. *)
Example getEndpoints_sample :
  getEndpoints sample_urljoin sample_JSON_parse
    (completing VNull (VObj Plain [("payload", VStr "[]")]))
    sample_api (VStr "light") (VFun 7)
  = Ok [Invoke 7 [VNull; js_array []]]
  /\ getEndpoints sample_urljoin sample_JSON_parse
       (fun requestData handler options => Ok [Invoke 0 [requestData]])
       sample_api (VStr "light") (VFun 7)
     = Ok [Invoke 0
             [VObj Plain
                [ ("method", VStr "GET");
                  ("url", VStr "https://api.connector.mbed.com/v2/endpoints");
                  ("headers", VObj Plain [("accept", VStr "application/json")]);
                  ("qs", VObj Plain [ ("cacheOnly", VBool true);
                                      ("type", VStr "light") ]) ]]].
Proof. split; reflexivity. Qed.

(** ** The uri-list of a subscription lookup *)

Lemma append_newline_not_empty t : t +:+ String newline "" <> "".
Proof. destruct t; discriminate. Qed.

Lemma append_cons c s t : String c s +:+ t = String c (s +:+ t).
Proof. reflexivity. Qed.

Lemma replace_trailing_newline_append t :
  replace_trailing_newline (t +:+ String newline "") = t.
Proof.
  induction t as [|c t IH]; [reflexivity|].
  rewrite append_cons. cbn [replace_trailing_newline]. rewrite IH.
  destruct (String.eqb (t +:+ String newline "") "") eqn:E.
  - apply String.eqb_eq in E. now apply append_newline_not_empty in E.
  - now rewrite andb_false_r.
Qed.

Lemma replace_trailing_newline_id s :
  (forall t, s <> t +:+ String newline "") -> replace_trailing_newline s = s.
Proof.
  induction s as [|c s IH]; intros H; [reflexivity|].
  cbn [replace_trailing_newline].
  destruct (is_newline c && String.eqb s "") eqn:E.
  - apply andb_true_iff in E as [Ec Es].
    apply Ascii.eqb_eq in Ec. apply String.eqb_eq in Es. subst.
    now destruct (H "").
  - f_equal. apply IH. intros t ->. now destruct (H (String c t)).
Qed.

Lemma split_newline_not_nil s : split_newline s <> [].
Proof.
  induction s as [|c s IH]; [discriminate|].
  cbn [split_newline]. destruct (is_newline c); [discriminate|].
  destruct (split_newline s); discriminate.
Qed.

Lemma join_newline_cons x y rest :
  join_newline (x :: y :: rest) = x +:+ String newline (join_newline (y :: rest)).
Proof. reflexivity. Qed.

Lemma join_split_newline s : join_newline (split_newline s) = s.
Proof.
  induction s as [|c s IH]; [reflexivity|].
  cbn [split_newline]. destruct (is_newline c) eqn:Ec.
  - apply Ascii.eqb_eq in Ec. subst c.
    pose proof (split_newline_not_nil s) as Hne.
    destruct (split_newline s) as [|y rest]; [contradiction|].
    rewrite join_newline_cons, IH. reflexivity.
  - pose proof (split_newline_not_nil s) as Hne.
    destruct (split_newline s) as [|y rest]; [contradiction|].
    destruct rest as [|z rest].
    + cbn in IH |- *. now rewrite IH.
    + rewrite join_newline_cons in IH. rewrite join_newline_cons.
      rewrite append_cons. now rewrite IH.
Qed.

Lemma split_newline_parts s :
  Forall (fun part => has_newline part = false) (split_newline s).
Proof.
  induction s as [|c s IH]; [repeat constructor|].
  cbn [split_newline]. destruct (is_newline c) eqn:Ec.
  - constructor; [reflexivity | exact IH].
  - destruct (split_newline s) as [|y rest].
    + repeat constructor. cbn. now rewrite Ec.
    + inversion IH; subst. constructor; [|assumption].
      cbn. now rewrite Ec.
Qed.

Example uri_list_of_two :
  split_newline
    (replace_trailing_newline
       ("/3/0/1" +:+ String newline ("/3/0/2" +:+ String newline "")))
  = ["/3/0/1"; "/3/0/2"].
Proof. reflexivity. Qed.

Example uri_list_keeps_inner_empty_line :
  split_newline
    (replace_trailing_newline ("/3/0/1" +:+ String newline (String newline "")))
  = ["/3/0/1"; ""].
Proof. reflexivity. Qed.

(** C9. On success, [getEndpointSubscriptions] hands the callback the
    payload with at most one trailing newline removed and then split on
    newlines; for the empty payload that is the one-element list holding the
    empty string, and the list is never empty. *)
Theorem getEndpointSubscriptions_uri_list
    urljoin makeRequest this endpoint options f error data payload :
  completes_with makeRequest error data ->
  truthy error = false ->
  member data "payload" = Ok (VStr payload) ->
  exists uris,
    getEndpointSubscriptions urljoin makeRequest this endpoint options (VFun f)
    = Ok [Invoke f [VNull; js_array (VStr <$> uris)]]
    /\ uris = split_newline (replace_trailing_newline payload)
    /\ (forall t, payload = t +:+ String newline "" -> join_newline uris = t)
    /\ ((forall t, payload <> t +:+ String newline "") -> join_newline uris = payload)
    /\ Forall (fun uri => has_newline uri = false) uris
    /\ uris <> []
    /\ (payload = "" -> uris = [""]).
Proof.
  intros Hdone Ht Hp. eexists. split; [|split; [reflexivity|]].
  - now apply getEndpointSubscriptions_list with (error := error) (data := data).
  - repeat split.
    + intros t ->. now rewrite replace_trailing_newline_append, join_split_newline.
    + intros H. now rewrite replace_trailing_newline_id, join_split_newline.
    + apply split_newline_parts.
    + apply split_newline_not_nil.
    + intros ->. reflexivity.
Qed.

Lemma getEndpointSubscriptions_uri_list_witness :
  getEndpointSubscriptions sample_urljoin
    (completing VNull (VObj Plain [("payload", VStr "")]))
    sample_api (VStr "dev1") VUndefined (VFun 0)
  = Ok [Invoke 0 [VNull; js_array [VStr ""]]].
Proof.
  destruct (getEndpointSubscriptions_uri_list sample_urljoin
              (completing VNull (VObj Plain [("payload", VStr "")]))
              sample_api (VStr "dev1") VUndefined 0 VNull
              (VObj Plain [("payload", VStr "")]) "")
    as (uris & Hcall & Huris & _).
  - intros rd cb o. reflexivity.
  - reflexivity.
  - reflexivity.
  - rewrite Hcall, Huris. reflexivity.
Defined.

(** ** The pending-request table *)

Lemma resolve_register c token callback r :
  resolve token r (register token callback c)
  = {| pending := delete token (pending c);
       delivered := delivered c ++ [Invoke callback [r]] |}.
Proof.
  unfold resolve, register. cbn [pending delivered].
  rewrite lookup_insert_eq. now rewrite delete_insert_eq.
Qed.

Lemma resolve_unknown c token r :
  pending c !! token = None -> resolve token r c = c.
Proof. intros H. unfold resolve. now rewrite H. Qed.

(** C7. [register(token, cb)] followed by [resolve(token, r)] calls [cb]
    with [r] exactly once and removes the entry; a second
    [resolve(token, r)] does nothing. *)
Theorem register_resolve_once c token callback r :
  let c1 := resolve token r (register token callback c) in
  delivered c1 = delivered c ++ [Invoke callback [r]]
  /\ pending c1 !! token = None
  /\ pending c1 = delete token (pending c)
  /\ resolve token r c1 = c1.
Proof.
  cbv zeta. rewrite resolve_register. cbn [pending delivered].
  repeat split.
  - apply lookup_delete_eq.
  - apply resolve_unknown. apply lookup_delete_eq.
Qed.

(** ** The deep merge, key by key *)

Lemma assoc_set_assoc_eq {A} name (v : A) ps :
  assoc name (set_assoc name v ps) = Some v.
Proof.
  induction ps as [|[n w] ps IH]; cbn.
  - now rewrite String.eqb_refl.
  - destruct (String.eqb name n) eqn:E; cbn; rewrite ?String.eqb_refl, ?E; auto.
Qed.

Lemma assoc_set_assoc_ne {A} name name' (v : A) ps :
  name <> name' -> assoc name' (set_assoc name v ps) = assoc name' ps.
Proof.
  intros Hne. induction ps as [|[n w] ps IH]; cbn.
  - apply String.eqb_neq in Hne. rewrite String.eqb_sym in Hne. now rewrite Hne.
  - destruct (String.eqb name n) eqn:E; cbn.
    + apply String.eqb_eq in E. subst n.
      assert (String.eqb name' name = false) as ->; [|reflexivity].
      apply String.eqb_neq. congruence.
    + destruct (String.eqb name' n); auto.
Qed.

Lemma assoc_None_keys name (ps : list (string * value)) :
  name ∉ keys ps -> assoc name ps = None.
Proof.
  induction ps as [|[n w] ps IH]; [reflexivity|]. cbn. intros Hnotin.
  destruct (String.eqb name n) eqn:E.
  - apply String.eqb_eq in E. subst. exfalso. apply Hnotin. left.
  - apply IH. intros Hin. apply Hnotin. now right.
Qed.

Lemma get_set_assoc_eq name v ps : get name (set_assoc name v ps) = v.
Proof. unfold get. now rewrite assoc_set_assoc_eq. Qed.

Lemma get_set_assoc_ne name name' v ps :
  name <> name' -> get name' (set_assoc name v ps) = get name' ps.
Proof. intros H. unfold get. now rewrite assoc_set_assoc_ne. Qed.

(** The loop inside [extend_deep] is a fold of [extend_step]. *)
Lemma extend_deep_fold clone k ps :
  extend_deep clone (VObj k ps)
  = VObj k (fold_left (fun t p => extend_step extend_deep t (fst p) (snd p)) ps clone).
Proof.
  cbn [extend_deep]. f_equal. revert clone.
  induction ps as [|[n c] ps IH]; intros clone; [reflexivity|].
  cbn [fold_left fst snd]. apply IH.
Qed.

Lemma extend_step_same t name copy :
  get name (extend_step extend_deep t name copy) = merged_value (get name t) copy.
Proof.
  unfold extend_step, merged_value.
  destruct copy as [| | | | | |[] ps]; try apply get_set_assoc_eq; reflexivity.
Qed.

Lemma extend_step_other t name name' copy :
  name <> name' -> get name' (extend_step extend_deep t name copy) = get name' t.
Proof.
  intros Hne. unfold extend_step.
  destruct copy as [| | | | | |[] ps]; try now apply get_set_assoc_ne.
  reflexivity.
Qed.

(** One pass over a source whose keys are distinct: each key of the target
    is merged with the source's value at that key, once. *)
Lemma extend_fold_get ps : forall t name,
  NoDup (keys ps) ->
  get name (fold_left (fun t p => extend_step extend_deep t (fst p) (snd p)) ps t)
  = merged_value (get name t) (get name ps).
Proof.
  induction ps as [|[n c] ps IH]; intros t name Hnd; [reflexivity|].
  cbn [fold_left fst snd]. cbn in Hnd. apply NoDup_cons in Hnd as [Hn Hnd].
  rewrite IH by assumption. unfold get at 4. cbn [assoc].
  destruct (String.eqb name n) eqn:E.
  - apply String.eqb_eq in E. subst n.
    unfold get at 2. rewrite (assoc_None_keys _ _ Hn). cbn [default merged_value].
    apply extend_step_same.
  - apply String.eqb_neq in E. rewrite extend_step_other by congruence.
    reflexivity.
Qed.

Lemma extend_deep_get clone k ps name :
  NoDup (keys ps) ->
  get_prop (extend_deep clone (VObj k ps)) name
  = merged_value (get name clone) (get name ps).
Proof.
  intros Hnd. rewrite extend_deep_fold. unfold get_prop. cbn [enum_props].
  now apply extend_fold_get.
Qed.

Lemma keys_indexed {A} (xs : list A) : fst <$> indexed xs = pretty <$> seq 0 (length xs).
Proof.
  unfold indexed. rewrite fmap_imap.
  rewrite (imap_ext _ (fun i _ => pretty i)) by reflexivity.
  now rewrite imap_seq_0.
Qed.

Lemma NoDup_keys_indexed (xs : list value) : NoDup (keys (indexed xs)).
Proof.
  unfold keys. rewrite keys_indexed. apply NoDup_fmap_2; [apply _|apply NoDup_seq].
Qed.

Lemma NoDup_enum_props v : well_formed v -> NoDup (keys (enum_props v)).
Proof.
  destruct v; cbn [enum_props]; intros H; try apply NoDup_nil_2.
  - apply NoDup_keys_indexed.
  - apply H.
Qed.

Lemma well_formed_assoc ps : forall name c,
  (fix all (ps : list (string * value)) : Prop :=
     match ps with
     | [] => True
     | (_, c) :: ps' => well_formed c /\ all ps'
     end) ps ->
  assoc name ps = Some c -> well_formed c.
Proof.
  induction ps as [|[n w] ps IH]; intros name c Hall Hc; [discriminate|].
  cbn in Hc. destruct Hall as [Hw Hall].
  destruct (String.eqb name n); [congruence | eauto].
Qed.

Lemma assoc_indexed_str (xs : list string) name c :
  assoc name (indexed (VStr <$> xs)) = Some c -> exists s, c = VStr s.
Proof.
  unfold indexed. generalize (pretty : nat -> string).
  induction xs as [|x xs IH]; intros g H; [discriminate|].
  cbn in H. destruct (String.eqb name (g 0)).
  - injection H as <-. eauto.
  - apply (IH (g ∘ S)). exact H.
Qed.

Lemma well_formed_get_prop v name : well_formed v -> well_formed (get_prop v name).
Proof.
  intros H. unfold get_prop, get.
  destruct (assoc name (enum_props v)) as [c|] eqn:E; [|exact I]. cbn [default].
  destruct v; cbn [enum_props] in E; try discriminate.
  - apply assoc_indexed_str in E as [s' ->]. exact I.
  - destruct H as [_ H]. eapply well_formed_assoc; eauto.
Qed.

Lemma lookup_path_cons name path v :
  lookup_path (name :: path) v = lookup_path path (get_prop v name).
Proof. reflexivity. Qed.

Lemma lookup_path_undefined path : lookup_path path VUndefined = VUndefined.
Proof. induction path as [|k path IH]; [reflexivity|]. now rewrite lookup_path_cons. Qed.

Lemma merged_value_get src k ps name :
  mergeable (VObj k ps) = true -> NoDup (keys ps) ->
  get_prop (merged_value src (VObj k ps)) name
  = merged_value (get name (clone_of k src)) (get name ps).
Proof.
  intros Hm Hnd. destruct k; try discriminate; cbn [merged_value];
    now apply extend_deep_get.
Qed.

Lemma merged_value_leaf src copy : leaf copy = true -> merged_value src copy = copy.
Proof. destruct copy as [| | | | | |[] ps]; try discriminate; reflexivity. Qed.

(** A leaf of the source is where it was after the merge, whatever the
    target held. *)
Lemma merged_value_keeps_leaves path : forall copy src c,
  well_formed copy ->
  lookup_path path copy = c -> leaf c = true ->
  lookup_path path (merged_value src copy) = c.
Proof.
  induction path as [|name path IH]; intros copy src c Hwf Hc Hleaf.
  - cbn in Hc |- *. subst c. now apply merged_value_leaf.
  - rewrite lookup_path_cons in Hc |- *.
    destruct (mergeable copy) eqn:Hm.
    + destruct copy as [| | | | | |k ps]; try discriminate.
      rewrite merged_value_get by (assumption || apply Hwf).
      apply IH; try assumption.
      apply (well_formed_get_prop (VObj k ps) name Hwf).
    + destruct copy as [| | | | | |[] ps]; try discriminate; try exact Hc.
      rewrite lookup_path_undefined in Hc. subst c. discriminate.
Qed.

(** Merging into nothing copies: every path leads to a value of the same
    shape as in the source. *)
Lemma merged_value_copies path : forall v,
  well_formed v ->
  shape (lookup_path path (merged_value VUndefined v)) = shape (lookup_path path v).
Proof.
  induction path as [|name path IH]; intros v Hwf.
  - cbn [lookup_path fold_left].
    destruct v as [| | | | | |[] ps]; try reflexivity;
      cbn [merged_value]; now rewrite extend_deep_fold.
  - rewrite !lookup_path_cons.
    destruct (mergeable v) eqn:Hm.
    + destruct v as [| | | | | |k ps]; try discriminate.
      rewrite merged_value_get by (assumption || apply Hwf).
      cbn [clone_of]. change (get name []) with VUndefined.
      apply (IH (get name ps)). apply (well_formed_get_prop (VObj k ps) name Hwf).
    + destruct v as [| | | | | |[] ps]; try discriminate; reflexivity.
Qed.

Lemma extend_source_get t source name :
  NoDup (keys (enum_props source)) ->
  get name (extend_source t source) = merged_value (get name t) (get_prop source name).
Proof.
  intros Hnd. unfold extend_source, get_prop.
  destruct source; try (now apply extend_fold_get); reflexivity.
Qed.

(** The merged options, key by key: the default is copied, then the per-call
    value is merged over the copy. *)
Lemma merged_options_get this options name :
  well_formed (this_options this) -> well_formed options ->
  get_prop (merged_options this options) name
  = merged_value (merged_value VUndefined (get_prop (this_options this) name))
      (get_prop (or_else options (VObj Plain [])) name).
Proof.
  intros Hthis Hopt. unfold merged_options, extend_true, get_prop at 1.
  cbn [enum_props fold_left].
  rewrite !extend_source_get.
  - reflexivity.
  - now apply NoDup_enum_props.
  - apply NoDup_enum_props. unfold or_else. destruct (truthy options); [assumption|].
    cbn. split; [apply NoDup_nil_2 | exact I].
Qed.

(** Inside objects that are merged into one another, a key that the source
    lacks keeps what the target held. *)
Lemma merged_value_keeps_absent path : forall src copy name rest,
  well_formed copy ->
  merged_along path src copy ->
  get_prop (lookup_path path copy) name = VUndefined ->
  lookup_path (path ++ name :: rest) (merged_value src copy)
  = lookup_path (path ++ name :: rest) src.
Proof.
  induction path as [|k0 path IH]; intros src copy name rest Hwf [Hboth Halong] Hundef.
  - destruct src as [| | | | | |k t]; try discriminate.
    destruct copy as [| | | | | |k' ps]; try discriminate.
    cbn [both_mergeable] in Hboth. apply andb_true_iff in Hboth as [Hm Hk].
    cbn [app lookup_path fold_left] in Hundef |- *.
    rewrite merged_value_get by (assumption || apply Hwf).
    cbn [clone_of]. rewrite Hk.
    unfold get_prop in Hundef. cbn [enum_props] in Hundef. rewrite Hundef.
    reflexivity.
  - destruct src as [| | | | | |k t]; try discriminate.
    destruct copy as [| | | | | |k' ps]; try discriminate.
    cbn [both_mergeable] in Hboth. apply andb_true_iff in Hboth as [Hm Hk].
    rewrite <- app_comm_cons, !lookup_path_cons.
    rewrite lookup_path_cons in Hundef.
    rewrite merged_value_get by (assumption || apply Hwf).
    cbn [clone_of]. rewrite Hk.
    apply (IH (get k0 t) (get k0 ps)); try assumption.
    apply (well_formed_get_prop (VObj k' ps) k0 Hwf).
Qed.

Lemma both_mergeable_shape a a' b :
  shape a' = shape a -> both_mergeable a b = true -> both_mergeable a' b = true.
Proof.
  intros Hs Hb. destruct a as [| | | | | |k t]; try discriminate.
  destruct b as [| | | | | |k' ps]; try discriminate.
  cbn [both_mergeable] in Hb. apply andb_true_iff in Hb as [Hm Hk].
  destruct k', k; try discriminate;
    destruct a' as [| | | | | |[] t']; try discriminate; reflexivity.
Qed.

Lemma merged_along_shape path : forall a a' b,
  (forall q, shape (lookup_path q a') = shape (lookup_path q a)) ->
  merged_along path a b -> merged_along path a' b.
Proof.
  induction path as [|k0 path IH]; intros a a' b Hs [Hboth Halong].
  - split; [|exact I]. apply (both_mergeable_shape a); [apply (Hs [])|assumption].
  - split; [apply (both_mergeable_shape a); [apply (Hs [])|assumption]|].
    apply (IH (get_prop a k0)); [|assumption].
    intros q. apply (Hs (k0 :: q)).
Qed.

Example merged_options_sample :
  merged_options sample_api
    (VObj Plain [ ("parameters", VObj Plain [("type", VStr "light")]);
                  ("host", VStr "http://localhost:8080");
                  ("restApiVersion", VUndefined) ])
  = VObj Plain [ ("host", VStr "http://localhost:8080");
                 ("restApiVersion", VStr "v2");
                 ("parameters",
                  VObj Plain [("cacheOnly", VBool true); ("type", VStr "light")]) ].
Proof. reflexivity. Qed.

(** Arrays are merged index by index, and an object does not merge into an
    array. *)
Example extend_true_arrays :
  extend_true
    [ VObj Plain [ ("a", js_array [VNum 1; VNum 2; VNum 3]);
                   ("b", js_array [VNum 1]) ];
      VObj Plain [ ("a", js_array [VNum 9]);
                   ("b", VObj Plain [("x", VNull)]) ] ]
  = VObj Plain [ ("a", js_array [VNum 9; VNum 2; VNum 3]);
                 ("b", VObj Plain [("x", VNull)]) ].
Proof. reflexivity. Qed.

(** ** The options every request is built from *)

(** C5, as stated, fails: a key that is present in the per-call options with
    the value [undefined] does not take precedence; the instance default
    stays. *)
Lemma undefined_override_keeps_default :
  let options := VObj Plain [("host", VUndefined)] in
  "host" ∈ keys (enum_props options)
  /\ get_prop options "host" = VUndefined
  /\ get_prop (merged_options sample_api options) "host"
     = VStr "https://api.connector.mbed.com"
  /\ get_prop (merged_options sample_api options) "host"
     <> get_prop options "host"
  /\ (forall makeRequest,
        getResourceSubscription sample_urljoin makeRequest sample_api
          (VStr "dev1") (VStr "/3/0/1") options (VFun 0)
        = getResourceSubscription sample_urljoin makeRequest sample_api
            (VStr "dev1") (VStr "/3/0/1") VUndefined (VFun 0)).
Proof.
  cbv zeta. split; [left | repeat split]. discriminate.
Qed.

(** The request of a call: it goes to [makeRequest] with the merged options
    as third argument, its URL starts with their [host] and
    [restApiVersion], and its query string, where the operation has one, is
    their [parameters]. *)
Lemma invoke_request_or_throw urljoin JSON_parse toString op this a :
  let effective := merged_options this (per_call_options op a) in
  (exists requestData handler segments,
     (forall makeRequest,
        invoke urljoin JSON_parse toString makeRequest op this a
        = makeRequest requestData handler effective)
     /\ get_prop requestData "url"
        = urljoin (get_prop effective "host" :: get_prop effective "restApiVersion"
                   :: segments)
     /\ (sends_query op = true ->
         get_prop requestData "qs" = get_prop effective "parameters")
     /\ (op = GetEndpoints -> truthy (get_prop effective "parameters") = true ->
         get_prop requestData "qs" = get_prop effective "parameters")
     /\ (op = GetEndpoints -> truthy (get_prop effective "parameters") = false ->
         "qs" ∉ keys (enum_props requestData))
     /\ (sends_query op = false -> op <> GetEndpoints ->
         "qs" ∉ keys (enum_props requestData)))
  \/ (exists e,
        forall makeRequest,
          invoke urljoin JSON_parse toString makeRequest op this a = Throw e).
Proof.
  destruct a as [ep res v opts cb]. cbv zeta.
  destruct op; cbn [invoke per_call_options arg_options sends_query];
    unfold_operations; unfold bind;
    repeat match goal with
           | |- context [if truthy ?x then _ else _] => destruct (truthy x) eqn:?
           | |- context [match toString ?x with _ => _ end] =>
               destruct (toString x) eqn:?
           | |- context [match endpoint_name ?x with _ => _ end] =>
               destruct (endpoint_name x) eqn:?
           end;
    first
      [ right; eexists; intros mk; reflexivity
      | left; do 3 eexists;
        split; [intros mk; reflexivity|];
        split; [reflexivity|];
        repeat split;
        first [ reflexivity
              | discriminate
              | congruence
              | intros; apply (bool_decide_unpack _); vm_compute; exact I ] ].
Qed.

(** The request depends on the defaults and on the per-call options through
    the merged options only. *)
Lemma invoke_through_merged_options urljoin JSON_parse toString op this a this' a' :
  arg_endpoint a' = arg_endpoint a ->
  arg_resource a' = arg_resource a ->
  arg_value a' = arg_value a ->
  arg_callback a' = arg_callback a ->
  merged_options this' (per_call_options op a')
  = merged_options this (per_call_options op a) ->
  forall makeRequest,
    invoke urljoin JSON_parse toString makeRequest op this' a'
    = invoke urljoin JSON_parse toString makeRequest op this a.
Proof.
  destruct a as [ep res v opts cb], a' as [ep' res' v' opts' cb'].
  cbn [arg_endpoint arg_resource arg_value arg_callback].
  intros -> -> -> -> Heq mk.
  destruct op; cbn [invoke per_call_options arg_options] in *; unfold_operations;
    now rewrite Heq.
Qed.

Lemma both_mergeable_shape_false a a' b :
  shape a' = shape a -> both_mergeable a b = false -> both_mergeable a' b = false.
Proof.
  intros Hs Hb. destruct (both_mergeable a' b) eqn:Hb'; [|reflexivity].
  rewrite (both_mergeable_shape a' a b) in Hb; [discriminate | congruence | assumption].
Qed.

Lemma merged_value_replaced src copy :
  mergeable copy = true -> both_mergeable src copy = false ->
  merged_value src copy = merged_value VUndefined copy.
Proof.
  intros Hm Hboth. destruct copy as [| | | | | |k ps]; try discriminate Hm.
  assert (clone_of k src = []) as Hclone.
  { destruct src as [| | | | | |k' t]; try reflexivity.
    cbn [both_mergeable] in Hboth. rewrite Hm in Hboth. cbn [andb] in Hboth.
    cbn [clone_of]. now rewrite Hboth. }
  destruct k; try discriminate Hm; cbn [merged_value clone_of]; now rewrite Hclone.
Qed.

Lemma lookup_path_app path rest v :
  lookup_path (path ++ rest) v = lookup_path rest (lookup_path path v).
Proof. unfold lookup_path. now rewrite fold_left_app. Qed.

Lemma lookup_path_snoc path key v :
  lookup_path (path ++ [key]) v = get_prop (lookup_path path v) key.
Proof. now rewrite lookup_path_app. Qed.

(** Inside objects that are merged into one another, a plain object or an
    array of the source replaces a value of another kind in the target. *)
Lemma merged_value_replaces_below path : forall src copy key rest,
  well_formed copy ->
  merged_along path src copy ->
  mergeable (get_prop (lookup_path path copy) key) = true ->
  both_mergeable (get_prop (lookup_path path src) key)
    (get_prop (lookup_path path copy) key) = false ->
  shape (lookup_path (path ++ key :: rest) (merged_value src copy))
  = shape (lookup_path rest (get_prop (lookup_path path copy) key)).
Proof.
  induction path as [|k0 path IH]; intros src copy key rest Hwf [Hboth Halong] Hm Hno.
  - destruct src as [| | | | | |k t]; try discriminate.
    destruct copy as [| | | | | |k' ps]; try discriminate.
    cbn [both_mergeable] in Hboth. apply andb_true_iff in Hboth as [Hmc Hk].
    cbn [app lookup_path fold_left] in Hm, Hno |- *.
    rewrite merged_value_get by (assumption || apply Hwf).
    cbn [clone_of]. rewrite Hk.
    unfold get_prop in Hm, Hno. cbn [enum_props] in Hm, Hno.
    rewrite merged_value_replaced by assumption.
    apply merged_value_copies.
    apply (well_formed_get_prop (VObj k' ps) key Hwf).
  - destruct src as [| | | | | |k t]; try discriminate.
    destruct copy as [| | | | | |k' ps]; try discriminate.
    cbn [both_mergeable] in Hboth. apply andb_true_iff in Hboth as [Hmc Hk].
    rewrite <- app_comm_cons, !lookup_path_cons.
    rewrite !lookup_path_cons in Hm, Hno.
    rewrite merged_value_get by (assumption || apply Hwf).
    cbn [clone_of]. rewrite Hk.
    apply (IH (get k0 t) (get k0 ps)); try assumption.
    apply (well_formed_get_prop (VObj k' ps) k0 Hwf).
Qed.

(** C5, amended.  Every operation builds its request (the URL, the query
    string where it has one, and the options it hands to [makeRequest]) from
    the deep merge of the instance defaults with the per-call options, and
    from the two in no other way.  In the merge:
    - a value of the per-call options that is neither [undefined] nor a
      plain object or array is found at the same path in the merged options;
    - a per-call plain object is merged key by key into a default that is a
      plain object, and a per-call array into a default that is an array, by
      these same rules; over a default of any other kind it is not merged
      but copied, and the default is gone;
    - a key that the per-call options lack, or hold as [undefined], keeps
      the instance default with everything below it, at the top and inside
      objects that are merged into one another. *)
Theorem merged_options_precedence urljoin JSON_parse toString op this a :
  well_formed (this_options this) ->
  well_formed (per_call_options op a) ->
  let defaults := this_options this in
  let overrides := or_else (per_call_options op a) (VObj Plain []) in
  let effective := merged_options this (per_call_options op a) in
  let request_from_effective :=
    exists requestData handler segments,
      (forall makeRequest,
         invoke urljoin JSON_parse toString makeRequest op this a
         = makeRequest requestData handler effective)
      /\ get_prop requestData "url"
         = urljoin (get_prop effective "host" :: get_prop effective "restApiVersion"
                    :: segments)
      /\ (sends_query op = true ->
          get_prop requestData "qs" = get_prop effective "parameters")
      /\ (op = GetEndpoints -> truthy (get_prop effective "parameters") = true ->
          get_prop requestData "qs" = get_prop effective "parameters")
      /\ (op = GetEndpoints -> truthy (get_prop effective "parameters") = false ->
          "qs" ∉ keys (enum_props requestData))
      /\ (sends_query op = false -> op <> GetEndpoints ->
          "qs" ∉ keys (enum_props requestData)) in
  (request_from_effective
   \/ exists e,
        forall makeRequest,
          invoke urljoin JSON_parse toString makeRequest op this a = Throw e)
  /\ (normalises_endpoint op = false -> request_from_effective)
  /\ (forall this' a',
        arg_endpoint a' = arg_endpoint a -> arg_resource a' = arg_resource a ->
        arg_value a' = arg_value a -> arg_callback a' = arg_callback a ->
        merged_options this' (per_call_options op a') = effective ->
        forall makeRequest,
          invoke urljoin JSON_parse toString makeRequest op this' a'
          = invoke urljoin JSON_parse toString makeRequest op this a)
  /\ (forall path c,
        path <> [] -> lookup_path path overrides = c -> leaf c = true ->
        lookup_path path effective = c)
  /\ (forall name path,
        get_prop overrides name = VUndefined ->
        shape (lookup_path (name :: path) effective)
        = shape (lookup_path (name :: path) defaults))
  /\ (forall name path key rest,
        merged_along path (get_prop defaults name) (get_prop overrides name) ->
        get_prop (lookup_path (name :: path) overrides) key = VUndefined ->
        shape (lookup_path (name :: path ++ key :: rest) effective)
        = shape (lookup_path (name :: path ++ key :: rest) defaults))
  /\ (forall name rest,
        mergeable (get_prop overrides name) = true ->
        both_mergeable (get_prop defaults name) (get_prop overrides name) = false ->
        shape (lookup_path (name :: rest) effective)
        = shape (lookup_path (name :: rest) overrides))
  /\ (forall name path key rest,
        merged_along path (get_prop defaults name) (get_prop overrides name) ->
        mergeable (get_prop (lookup_path (name :: path) overrides) key) = true ->
        both_mergeable (get_prop (lookup_path (name :: path) defaults) key)
          (get_prop (lookup_path (name :: path) overrides) key) = false ->
        shape (lookup_path (name :: path ++ key :: rest) effective)
        = shape (lookup_path (name :: path ++ key :: rest) overrides)).
Proof.
  intros Hthis Hopt defaults overrides effective request_from_effective.
  assert (well_formed overrides) as Hover.
  { unfold overrides, or_else.
    destruct (truthy (per_call_options op a)); [assumption|].
    cbn. split; [apply NoDup_nil_2 | exact I]. }
  assert (forall name q,
            shape (lookup_path q (merged_value VUndefined (get_prop defaults name)))
            = shape (lookup_path q (get_prop defaults name))) as Hcopy.
  { intros name q. apply merged_value_copies. now apply well_formed_get_prop. }
  split; [|split; [|split; [|split; [|split; [|split; [|split]]]]]].
  - apply invoke_request_or_throw.
  - intros Hop.
    destruct (invoke_request_or_throw urljoin JSON_parse toString op this a)
      as [Hreq|[e Hthrow]]; [exact Hreq|].
    exfalso.
    destruct (issues_request_without_endpoint_name urljoin JSON_parse toString
                op this a) as (rd & k & o & Hissued); [now destruct op|].
    specialize (Hthrow (fun _ _ _ => Ok [])). rewrite Hissued in Hthrow.
    discriminate Hthrow.
  - intros this' a' He Hr Hv Hc Heq. now apply invoke_through_merged_options.
  - intros [|name path] c Hne Hc Hleaf; [contradiction|].
    rewrite lookup_path_cons in Hc |- *.
    unfold effective. rewrite merged_options_get by assumption.
    apply merged_value_keeps_leaves; try assumption.
    now apply well_formed_get_prop.
  - intros name path Hundef. rewrite !lookup_path_cons.
    unfold effective. rewrite merged_options_get by assumption.
    fold overrides. rewrite Hundef. cbn [merged_value]. apply Hcopy.
  - intros name path key rest Halong Hundef.
    rewrite !lookup_path_cons. rewrite lookup_path_cons in Hundef.
    unfold effective. rewrite merged_options_get by assumption. fold overrides.
    rewrite merged_value_keeps_absent.
    + apply Hcopy.
    + now apply well_formed_get_prop.
    + apply (merged_along_shape path (get_prop defaults name)); [|assumption].
      apply Hcopy.
    + assumption.
  - intros name rest Hm Hno. rewrite !lookup_path_cons.
    unfold effective. rewrite merged_options_get by assumption.
    fold defaults overrides.
    rewrite merged_value_replaced; [| assumption |].
    + apply merged_value_copies. now apply well_formed_get_prop.
    + apply (both_mergeable_shape_false (get_prop defaults name));
        [apply (Hcopy name []) | assumption].
  - intros name path key rest Halong Hm Hno.
    rewrite !lookup_path_cons. rewrite lookup_path_cons in Hm.
    rewrite !lookup_path_cons in Hno.
    unfold effective. rewrite merged_options_get by assumption.
    fold defaults overrides.
    rewrite (lookup_path_app path (key :: rest) (get_prop overrides name)).
    rewrite lookup_path_cons.
    apply merged_value_replaces_below.
    + now apply well_formed_get_prop.
    + apply (merged_along_shape path (get_prop defaults name)); [|assumption].
      apply Hcopy.
    + assumption.
    + apply (both_mergeable_shape_false
               (get_prop (lookup_path path (get_prop defaults name)) key));
        [|assumption].
      rewrite <- !lookup_path_snoc. apply Hcopy.
Qed.

Lemma merged_options_precedence_witness :
  let options :=
    VObj Plain [ ("host", VStr "http://localhost:8080");
                 ("parameters", VObj Plain [("type", VStr "light")]) ] in
  let a :=
    {| arg_endpoint := VStr "dev1"; arg_resource := VStr "3/0/1";
       arg_value := VUndefined; arg_options := options; arg_callback := VFun 0 |} in
  let effective := merged_options sample_api options in
  let other :=
    VObj Plain [ ("parameters", VObj Array [("0", VNum 7)]) ] in
  let replaced := merged_options sample_api other in
  (exists requestData handler,
     (forall makeRequest,
        invoke sample_urljoin sample_JSON_parse sample_toString makeRequest
          GetResourceValue sample_api a
        = makeRequest requestData handler effective)
     /\ get_prop requestData "url"
        = VStr "http://localhost:8080/v2/endpoints/dev1/3/0/1"
     /\ lookup_path ["qs"; "type"] requestData = VStr "light")
  /\ lookup_path ["host"] effective = VStr "http://localhost:8080"
  /\ lookup_path ["parameters"; "type"] effective = VStr "light"
  /\ shape (lookup_path ["restApiVersion"] effective) = VStr "v2"
  /\ shape (lookup_path ["parameters"; "cacheOnly"] effective) = VBool true
  /\ shape (lookup_path ["parameters"; "0"] replaced) = VNum 7
  /\ shape (lookup_path ["parameters"; "cacheOnly"] replaced) = VUndefined.
Proof.
  cbv zeta.
  destruct (merged_options_precedence sample_urljoin sample_JSON_parse sample_toString
              GetResourceValue sample_api
              {| arg_endpoint := VStr "dev1"; arg_resource := VStr "3/0/1";
                 arg_value := VUndefined;
                 arg_options :=
                   VObj Plain [ ("host", VStr "http://localhost:8080");
                                ("parameters", VObj Plain [("type", VStr "light")]) ];
                 arg_callback := VFun 0 |})
    as (Hrequest & _ & _ & Hover & Hkeep & Hdeep & _ & _).
  { cbn. repeat split; apply (bool_decide_unpack _); vm_compute; exact I. }
  { cbn. repeat split; apply (bool_decide_unpack _); vm_compute; exact I. }
  destruct (merged_options_precedence sample_urljoin sample_JSON_parse sample_toString
              PutResourceSubscription sample_api
              {| arg_endpoint := VStr "dev1"; arg_resource := VStr "3/0/1";
                 arg_value := VUndefined;
                 arg_options :=
                   VObj Plain [ ("parameters", VObj Array [("0", VNum 7)]) ];
                 arg_callback := VFun 0 |})
    as (_ & _ & _ & _ & _ & _ & Hreplace & _).
  { cbn. repeat split; apply (bool_decide_unpack _); vm_compute; exact I. }
  { cbn. repeat split; apply (bool_decide_unpack _); vm_compute; exact I. }
  split; [|split; [|split; [|split; [|split; [|split]]]]].
  - destruct Hrequest as [(rd & handler & segments & Hreq & Hurl & Hqs & _)
                         |[e Hthrow]].
    + exists rd, handler. split; [exact Hreq|]. split.
      * specialize (Hreq (fun requestData _ _ => Ok [Invoke 0 [requestData]])).
        injection Hreq as <-. reflexivity.
      * unfold lookup_path. cbn [fold_left]. rewrite (Hqs eq_refl). reflexivity.
    + specialize (Hthrow (fun _ _ _ => Ok [])). discriminate Hthrow.
  - apply Hover; [discriminate | reflexivity | reflexivity].
  - apply Hover; [discriminate | reflexivity | reflexivity].
  - apply (Hkeep "restApiVersion" []). reflexivity.
  - apply (Hdeep "parameters" [] "cacheOnly" []); [|reflexivity].
    split; [reflexivity | exact I].
  - apply (Hreplace "parameters" ["0"]); reflexivity.
  - apply (Hreplace "parameters" ["cacheOnly"]); reflexivity.
Defined.

(** C10. A string given to [getEndpoints] as its options is an endpoint-type
    filter: the call is the call with [{parameters: {type: s}}], and the
    request carries [type = s] in its query string. *)
Theorem getEndpoints_type_filter urljoin JSON_parse this s callback :
  (forall makeRequest,
     getEndpoints urljoin JSON_parse makeRequest this (VStr s) callback
     = getEndpoints urljoin JSON_parse makeRequest this
         (VObj Plain [("parameters", VObj Plain [("type", VStr s)])]) callback)
  /\ exists requestData handler options,
       (forall makeRequest,
          getEndpoints urljoin JSON_parse makeRequest this (VStr s) callback
          = makeRequest requestData handler options)
       /\ get_prop (get_prop requestData "qs") "type" = VStr s
       /\ get_prop (get_prop options "parameters") "type" = VStr s.
Proof.
  split; [intros mk; reflexivity|].
  pose (options := VObj Plain [("parameters", VObj Plain [("type", VStr s)])]).
  assert (get_prop (merged_options this options) "parameters"
          = extend_deep
              (clone_of Plain
                 (get "parameters" (extend_source [] (this_options this))))
              (VObj Plain [("type", VStr s)])) as Hparams.
  { unfold merged_options, extend_true, get_prop at 1.
    cbn [enum_props fold_left]. rewrite extend_source_get; [reflexivity|].
    apply (bool_decide_unpack _). vm_compute. exact I. }
  assert (get_prop (get_prop (merged_options this options) "parameters") "type"
          = VStr s) as Htype.
  { rewrite Hparams, extend_deep_get; [reflexivity|].
    apply (bool_decide_unpack _). vm_compute. exact I. }
  assert (truthy (get_prop (merged_options this options) "parameters") = true)
    as Htruthy.
  { rewrite Hparams, extend_deep_fold. reflexivity. }
  unfold getEndpoints. cbn [typeof_string]. fold options. rewrite Htruthy.
  do 3 eexists. split; [intros mk; reflexivity|]. split; exact Htype.
Qed.

(** ** What the merge writes to *)

Lemma has_kind_agree h h' k l :
  h' !! l = h !! l -> has_kind h' k (SRef l) = has_kind h k (SRef l).
Proof. intros H. unfold has_kind. now rewrite H. Qed.

Lemma props_ok_agree n h h' ps :
  agree_below n h h' -> props_ok n h ps -> props_ok n h' ps.
Proof.
  intros Hag Hok name l Hin Hl.
  rewrite !(has_kind_agree h h') by now apply Hag.
  now apply (Hok name).
Qed.

Lemma agree_below_trans n h1 h2 h3 :
  agree_below n h1 h2 -> agree_below n h2 h3 -> agree_below n h1 h3.
Proof. intros H12 H23 l Hl. rewrite H23, H12; auto. Qed.

Lemma grows_refl n h : owned_closed n h -> grows n h h.
Proof. intros H. repeat split; auto. Qed.

Lemma grows_trans n h1 h2 h3 : grows n h1 h2 -> grows n h2 h3 -> grows n h1 h3.
Proof.
  intros (Ha & Hl & _) (Ha' & Hl' & Hc). repeat split.
  - eapply agree_below_trans; eauto.
  - etrans; eauto.
  - exact Hc.
Qed.

Lemma assoc_elem_of {A} name (v : A) ps : assoc name ps = Some v -> (name, v) ∈ ps.
Proof.
  induction ps as [|[n w] ps IH]; [discriminate|]. cbn.
  destruct (String.eqb name n) eqn:E.
  - apply String.eqb_eq in E. intros [= ->]. subst. left.
  - intros H. right. auto.
Qed.

Lemma elem_of_set_assoc {A} name (v : A) ps p :
  p ∈ set_assoc name v ps -> p = (name, v) \/ p ∈ ps.
Proof.
  induction ps as [|[n w] ps IH]; cbn.
  - intros H. apply list_elem_of_singleton in H. now left.
  - destruct (String.eqb name n).
    + intros H. apply elem_of_cons in H as [H|H]; [now left | right; now right].
    + intros H. apply elem_of_cons in H as [H|H]; [right; subst; left|].
      destruct (IH H) as [?|?]; [now left | right; now right].
Qed.

Lemma grows_alloc n h o :
  n <= length h -> owned_closed n h -> props_ok n h (obj_props o) ->
  grows n h (alloc h o).1.
Proof.
  intros Hn Hc Hok. cbn [alloc fst].
  assert (agree_below n h (h ++ [o])) as Hag.
  { intros l Hl. apply lookup_app_l. lia. }
  split; [exact Hag | split; [rewrite length_app; lia |]].
  intros l o' Hl Hlook. apply (props_ok_agree n h); [exact Hag|].
  apply lookup_app_Some in Hlook as [Hlook|[_ Hlook]].
  - now apply (Hc l).
  - destruct (l - length h) as [|i]; [|destruct i; discriminate].
    cbn in Hlook. now injection Hlook as <-.
Qed.

Lemma grows_set_field n h l name v :
  n <= l -> owned_closed n h ->
  (forall l', v = SRef l' -> l' < n ->
     has_kind h Plain v || has_kind h Array v = false) ->
  grows n h (set_field h l name v).
Proof.
  intros Hn Hc Hv. unfold set_field.
  destruct (h !! l) as [o|] eqn:Ho; [|now apply grows_refl].
  assert (agree_below n h
            (<[l:={| obj_kind := obj_kind o;
                     obj_props := set_assoc name v (obj_props o) |}]> h)) as Hag.
  { intros l' Hl'. apply list_lookup_insert_ne. lia. }
  split; [exact Hag | split; [rewrite length_insert; lia |]].
  intros l1 o1 Hl1 Hlook. apply (props_ok_agree n h); [exact Hag|].
  destruct (decide (l = l1)) as [->|Hne].
  - rewrite list_lookup_insert_eq in Hlook by (eapply lookup_lt_Some; eauto).
    injection Hlook as <-. cbn [obj_props].
    intros nm l2 Hin Hl2. apply elem_of_set_assoc in Hin as [Heq|Hin].
    + injection Heq as -> <-. now apply (Hv l2).
    + now apply (Hc l1 o Hl1 Ho nm).
  - rewrite list_lookup_insert_ne in Hlook by assumption.
    now apply (Hc l1).
Qed.

(** A property of an object from [n] on that refers to a plain object or
    an array refers to one from [n] on. *)
Lemma owned_field_fresh n h target name k l :
  owned_closed n h -> n <= target ->
  field h (SRef target) name = SRef l ->
  has_kind h k (SRef l) = true -> (k = Plain \/ k = Array) ->
  n <= l.
Proof.
  intros Hc Ht Hf Hk Hpa. destruct (decide (n <= l)) as [|Hlt]; [assumption|].
  exfalso. unfold field, props_of in Hf.
  destruct (h !! target) as [o|] eqn:Ho; [|discriminate]. cbn in Hf.
  destruct (assoc name (obj_props o)) as [v|] eqn:Ha; [|discriminate].
  cbn in Hf. subst v. apply assoc_elem_of in Ha.
  pose proof (Hc target o Ht Ho name l Ha ltac:(lia)) as Hno.
  apply orb_false_iff in Hno as [Hp Har].
  destruct Hpa as [-> | ->]; congruence.
Qed.

Lemma clone_for_grows n h k target name :
  n <= length h -> owned_closed n h -> n <= target -> (k = Plain \/ k = Array) ->
  grows n h (clone_for h k (field h (SRef target) name)).1
  /\ n <= (clone_for h k (field h (SRef target) name)).2.
Proof.
  intros Hn Hc Ht Hk. unfold clone_for.
  assert (grows n h (alloc h {| obj_kind := k; obj_props := [] |}).1
          /\ n <= (alloc h {| obj_kind := k; obj_props := [] |}).2) as Hnew.
  { split; [|exact Hn]. apply grows_alloc; try assumption.
    intros nm l Hin. cbn in Hin. now apply elem_of_nil in Hin. }
  destruct (field h (SRef target) name) as [| | | | | |l] eqn:Hf; try exact Hnew.
  destruct (has_kind h k (SRef l)) eqn:Hkind; [|exact Hnew].
  cbn [fst snd]. split; [now apply grows_refl|].
  eapply owned_field_fresh; eauto.
Qed.

Lemma extend_name_grows n extend target options name h :
  writes_above n extend ->
  n <= length h -> n <= target -> owned_closed n h ->
  grows n h (extend_name extend target options name h).1.
Proof.
  intros Hrec Hn Ht Hc. unfold extend_name.
  destruct (sval_eqb (SRef target) (field h options name)); [now apply grows_refl|].
  destruct (has_kind h Plain (field h options name)
            || has_kind h Array (field h options name)) eqn:Hm.
  - set (k := if has_kind h Array (field h options name) then Array else Plain).
    assert (k = Plain \/ k = Array) as Hk.
    { unfold k. destruct (has_kind h Array _); auto. }
    destruct (clone_for_grows n h k target name Hn Hc Ht Hk) as [Hg1 Hclone].
    destruct (clone_for h k (field h (SRef target) name)) as [h1 clone].
    cbn [fst snd] in Hg1, Hclone.
    assert (n <= length h1) as Hn1 by (destruct Hg1 as (_ & ? & _); lia).
    pose proof (Hrec h1 clone [field h options name] Hn1 Hclone
                  (proj2 (proj2 Hg1))) as Hg2.
    destruct (extend h1 clone [field h options name]) as [h2 ok].
    cbn [fst] in Hg2.
    destruct ok; cbn [fst].
    + eapply grows_trans; [exact Hg1|]. eapply grows_trans; [exact Hg2|].
      apply grows_set_field; [assumption | apply Hg2 |].
      intros l' [= <-] Hl'. lia.
    + eapply grows_trans; eauto.
  - destruct (field h options name) eqn:Hcopy; cbn [fst];
      try (apply grows_set_field; [assumption | assumption | intros; exact Hm]).
    now apply grows_refl.
Qed.

Lemma extend_names_grows n extend target options names : forall h,
  writes_above n extend ->
  n <= length h -> n <= target -> owned_closed n h ->
  grows n h (extend_names extend target options names h).1.
Proof.
  induction names as [|name names IH]; intros h Hrec Hn Ht Hc.
  - now apply grows_refl.
  - cbn [extend_names].
    pose proof (extend_name_grows n extend target options name h Hrec Hn Ht Hc) as Hg.
    destruct (extend_name extend target options name h) as [h1 ok]. cbn [fst] in Hg.
    destruct ok; [|exact Hg].
    eapply grows_trans; [exact Hg|].
    apply IH; try assumption; destruct Hg as (_ & ? & ?); [lia | assumption].
Qed.

Lemma extend_sources_grows n extend target sources : forall h,
  writes_above n extend ->
  n <= length h -> n <= target -> owned_closed n h ->
  grows n h (extend_sources extend target sources h).1.
Proof.
  induction sources as [|options sources IH]; intros h Hrec Hn Ht Hc.
  - now apply grows_refl.
  - cbn [extend_sources].
    assert (grows n h
              (match options with
               | SUndefined | SNull => (h, true)
               | _ => extend_names extend target options
                        (fst <$> props_of h options) h
               end).1) as Hg.
    { destruct options; try (now apply grows_refl);
        now apply extend_names_grows. }
    destruct (match options with
              | SUndefined | SNull => (h, true)
              | _ => extend_names extend target options
                       (fst <$> props_of h options) h
              end) as [h1 ok].
    cbn [fst] in Hg. destruct ok; [|exact Hg].
    eapply grows_trans; [exact Hg|].
    apply IH; try assumption; destruct Hg as (_ & ? & ?); [lia | assumption].
Qed.

(** The merge writes to its target and to the objects it makes, and to
    nothing older, however much fuel it is given. *)
Lemma extend_st_writes_above n fuel : writes_above n (extend_st fuel).
Proof.
  induction fuel as [|fuel IH]; intros h target sources Hn Ht Hc.
  - now apply grows_refl.
  - cbn [extend_st]. now apply extend_sources_grows.
Qed.

(** ** Operations over the store *)

Lemma preserves_ret {A} P n (Q : A -> Prop) a : Q a -> preserves P n Q (st_ret a).
Proof.
  intros HQ h h' r Hn [= <- <-]. split; [auto|]. split; [lia|]. now intros a' [= <-].
Qed.

Lemma preserves_stop {A} P n (Q : A -> Prop) : preserves P n Q st_stop.
Proof. intros h h' r Hn [= <- <-]. split; [auto|]. split; [lia|]. discriminate. Qed.

Lemma preserves_read {A} P n (f : heap -> A) : preserves P n (fun _ => True) (st_read f).
Proof. intros h h' r Hn [= <- <-]. split; [auto|]. split; [lia|]. auto. Qed.

Lemma preserves_option {A} P n (f : heap -> option A) :
  preserves P n (fun _ => True) (fun h => (h, f h)).
Proof. intros h h' r Hn [= <- <-]. split; [auto|]. split; [lia|]. auto. Qed.

Lemma preserves_new P n k props : preserves P n (fresh n) (st_new k props).
Proof.
  intros h h' r Hn. unfold st_new, alloc. intros [= <- <-]. split; [|split].
  - intros l Hl _. apply lookup_app_l. lia.
  - rewrite length_app. lia.
  - intros a [= <-]. exists (length h). auto.
Qed.

Lemma preserves_set P n o name v :
  fresh n o -> preserves P n (fun _ => True) (st_set o name v).
Proof.
  intros (t & -> & Ht) h h' r Hn. unfold st_set, set_field. intros [= <- <-].
  split; [|split; [|auto]].
  - intros l Hl _. destruct (h !! t); [|reflexivity].
    apply list_lookup_insert_ne. lia.
  - destruct (h !! t); [rewrite length_insert|]; lia.
Qed.

Lemma preserves_weaken {A} P n (Q Q' : A -> Prop) m :
  (forall a, Q a -> Q' a) -> preserves P n Q m -> preserves P n Q' m.
Proof.
  intros HQ Hm h h' r Hn E. destruct (Hm h h' r Hn E) as (H1 & H2 & H3).
  split; [exact H1|]. split; [exact H2|]. intros a Ha. auto.
Qed.

Lemma preserves_bind {A B} P n (Q : A -> Prop) (R : B -> Prop) m (f : A -> St B) :
  preserves P n Q m -> (forall a, Q a -> preserves P n R (f a)) ->
  preserves P n R (st_bind m f).
Proof.
  intros Hm Hf h h' r Hn. unfold st_bind.
  destruct (m h) as [h1 [a|]] eqn:E; destruct (Hm h h1 _ Hn E) as (H1 & H2 & H3).
  - intros E'. destruct (Hf a (H3 a eq_refl) h1 h' r ltac:(lia) E') as (H1' & H2' & H3').
    split; [|split; [lia | exact H3']].
    intros l Hl HP. rewrite H1', H1; auto.
  - intros [= <- <-]. split; [exact H1|]. split; [exact H2|]. discriminate.
Qed.

Lemma keeps_bind {A B} P n (Q : A -> Prop) m (f : A -> St B) :
  preserves P n Q m -> (forall a, Q a -> keeps P n (f a)) -> keeps P n (st_bind m f).
Proof.
  intros Hm Hf h h' r Hn. unfold st_bind.
  destruct (m h) as [h1 [a|]] eqn:E; destruct (Hm h h1 _ Hn E) as (H1 & H2 & H3).
  - intros E' l Hl HP.
    rewrite (Hf a (H3 a eq_refl) h1 h' r ltac:(lia) E' l Hl HP). auto.
  - intros [= <- <-]. exact H1.
Qed.

(** The merge of the options writes to nothing that was there before it. *)
Lemma merged_options_st_agree fuel this options h :
  agree_below (length h) h (merged_options_st fuel this options h).1
  /\ length h <= length (merged_options_st fuel this options h).1.
Proof.
  unfold merged_options_st, st_bind, st_new, st_read, st_ret.
  cbn [alloc].
  set (h1 := h ++ [{| obj_kind := Plain; obj_props := [] |}]).
  assert (owned_closed (length h) h) as Hc0.
  { intros l o Hl Hlook. apply lookup_lt_Some in Hlook. lia. }
  assert (forall k, props_ok (length h) h (obj_props {| obj_kind := k; obj_props := [] |}))
    as Hempty.
  { intros k nm l Hin. cbn in Hin. now apply elem_of_nil in Hin. }
  assert (grows (length h) h h1) as Hg1.
  { apply (grows_alloc (length h) h {| obj_kind := Plain; obj_props := [] |});
      [lia | assumption | apply Hempty]. }
  assert (forall h2 opts,
            (if struthy options then (h1, Some options)
             else (let '(h', l) := alloc h1 {| obj_kind := Plain; obj_props := [] |} in
                   (h', Some (SRef l)))) = (h2, Some opts) ->
            grows (length h) h h2) as Hg2.
  { intros h2 opts. destruct (struthy options).
    - now intros [= <- _].
    - cbn [alloc]. intros [= <- _]. eapply grows_trans; [exact Hg1|].
      apply (grows_alloc (length h) h1 {| obj_kind := Plain; obj_props := [] |}).
      + destruct Hg1 as (_ & ? & _). lia.
      + apply Hg1.
      + intros nm l Hin. cbn in Hin. now apply elem_of_nil in Hin. }
  destruct (struthy options).
  - specialize (Hg2 h1 options eq_refl).
    pose proof (extend_st_writes_above (length h) fuel h1 (length h)
                  [field h1 this "options"; options]
                  ltac:(destruct Hg2 as (_ & ? & _); lia) ltac:(lia)
                  (proj2 (proj2 Hg2))) as Hg3.
    destruct (extend_st fuel h1 (length h) [field h1 this "options"; options])
      as [h3 ok].
    cbn [fst] in *. pose proof (grows_trans _ _ _ _ Hg2 Hg3) as (Ha & Hl & _).
    destruct ok; cbn [fst]; auto.
  - cbn [alloc] in *.
    specialize (Hg2 _ _ eq_refl).
    pose proof (extend_st_writes_above (length h) fuel
                  (h1 ++ [{| obj_kind := Plain; obj_props := [] |}]) (length h)
                  [field h1 this "options"; SRef (length h1)]
                  ltac:(destruct Hg2 as (_ & ? & _); lia) ltac:(lia)
                  (proj2 (proj2 Hg2))) as Hg3.
    destruct (extend_st fuel (h1 ++ [{| obj_kind := Plain; obj_props := [] |}])
                (length h) [field h1 this "options"; SRef (length h1)]) as [h3 ok].
    cbn [fst] in *. pose proof (grows_trans _ _ _ _ Hg2 Hg3) as (Ha & Hl & _).
    destruct ok; cbn [fst]; auto.
Qed.

Lemma merged_options_st_result fuel this options h h' a :
  merged_options_st fuel this options h = (h', Some a) -> a = SRef (length h).
Proof.
  unfold merged_options_st, st_bind, st_new, st_read, st_ret. cbn [alloc].
  destruct (struthy options); cbn [alloc];
    match goal with |- context [extend_st ?f ?x ?t ?s] =>
      destruct (extend_st f x t s) as [h3 []] end;
    now intros [= _ <-].
Qed.

Lemma preserves_merged_options P n fuel this options :
  preserves P n (fresh n) (merged_options_st fuel this options).
Proof.
  intros h h' r Hn E.
  destruct (merged_options_st_agree fuel this options h) as [Ha Hl].
  rewrite E in Ha, Hl. cbn [fst] in Ha, Hl. split; [|split; [exact Hl|]].
  - intros l Hlt _. apply Ha. lia.
  - intros a ->. apply merged_options_st_result in E as ->.
    exists (length h). auto.
Qed.

Lemma preserves_endpoint_name P n endpoint :
  preserves P n (fun _ => True) (endpoint_name_st endpoint).
Proof.
  destruct endpoint; cbn [endpoint_name_st];
    try (now apply preserves_ret); [apply preserves_stop|].
  eapply preserves_bind; [apply preserves_read|].
  intros name _. now apply preserves_ret.
Qed.

Lemma preserves_url P n urljoin options segments :
  preserves P n (fun _ => True) (url_st urljoin options segments).
Proof. apply preserves_read. Qed.

Lemma preserves_json_headers P n : preserves P n (fresh n) json_headers.
Proof. apply preserves_new. Qed.

Lemma preserves_unit P n : preserves P n (fun _ : unit => True) (st_ret tt).
Proof. now apply preserves_ret. Qed.

Create HintDb frame.

#[local] Hint Resolve preserves_read preserves_option preserves_new preserves_set
  preserves_merged_options preserves_endpoint_name preserves_url
  preserves_json_headers preserves_unit preserves_stop : frame.

(** One statement of an operation after the other, up to [makeRequest]. *)
Ltac frame_steps Hmk :=
  repeat first
    [ apply Hmk
    | eapply keeps_bind; [ solve [eauto with frame] | intros ? ? ] ].

Section StoreFrame.

Variable fuel : nat.
Variable urljoin : list sval -> sval.
Variable toString : heap -> sval -> option sval.
Variable makeRequest : sval -> sval -> St unit.
Variable P : nat -> Prop.
Variable n : nat.
Hypothesis makeRequest_keeps :
  forall requestData options, keeps P n (makeRequest requestData options).

Lemma invoke_st_keeps op this a :
  keeps P n (invoke_st fuel urljoin toString makeRequest op this a).
Proof.
  destruct a as [endpoint resource value options].
  destruct op; cbn [invoke_st];
    unfold getResourceSubscription_st, putResourceSubscription_st,
      deleteResourceSubscription_st, getEndpointSubscriptions_st,
      deleteEndpointSubscriptions_st, deleteAllSubscriptions_st,
      getPreSubscription_st, putPreSubscription_st, getEndpoints_st,
      getResources_st, getResourceValue_st, putResourceValue_st,
      postResource_st, deleteEndpoint_st;
    try (frame_steps makeRequest_keeps; fail).
  - (* getEndpoints: the string turned into a filter, and the query string *)
    eapply keeps_bind with (Q := fun _ => True).
    { destruct options; try (now apply preserves_ret).
      eapply preserves_bind; [apply preserves_new|].
      intros parameters _. eapply preserves_weaken; [|apply preserves_new]. auto. }
    intros options' _. frame_steps makeRequest_keeps.
    eapply keeps_bind with (Q := fun _ => True).
    { destruct (struthy _); eauto with frame. }
    intros _ _. apply makeRequest_keeps.
  - (* postResource: the optional body *)
    frame_steps makeRequest_keeps.
    eapply keeps_bind with (Q := fun _ => True).
    { destruct (struthy value); [|eauto with frame].
      eapply preserves_bind; [apply preserves_option|].
      intros body _. eauto with frame. }
    intros _ _. apply makeRequest_keeps.
Qed.

End StoreFrame.

Lemma take_agree (h h1 : heap) :
  (forall l, l < length h -> h1 !! l = h !! l) -> take (length h) h1 = h.
Proof.
  intros Hall. apply list_eq. intros l. destruct (decide (l < length h)) as [Hl|Hl].
  - rewrite lookup_take_lt by assumption. now apply Hall.
  - rewrite lookup_take_ge by lia. symmetry. apply lookup_ge_None. lia.
Qed.

(** C8. No operation changes the defaults of the instance: the options are
    merged into a new object, and nothing the call builds its request from
    is an object that was there before.  Whatever [makeRequest] leaves alone
    (the objects in [P]), the whole call leaves alone; in particular
    [this.options] is the same before and after, and so is every object
    reachable from it.  Up to the [makeRequest] call, the store of before is
    there unchanged, and the merged options are a new object. *)
Theorem operations_keep_this_options
    fuel urljoin toString makeRequest (P : nat -> Prop) op this a h :
  (forall requestData options h0 h1 r,
     makeRequest requestData options h0 = (h1, r) ->
     forall l, l < length h0 -> P l -> h1 !! l = h0 !! l) ->
  let h' := (invoke_st fuel urljoin toString makeRequest op this a h).1 in
  (forall l, l < length h -> P l -> h' !! l = h !! l)
  /\ (forall t, this = SRef t -> t < length h -> P t ->
        field h' this "options" = field h this "options")
  /\ take (length h)
       (invoke_st fuel urljoin toString (fun _ _ => st_ret tt) op this a h).1
     = h
  /\ (forall options h1 merged,
        merged_options_st fuel this options h = (h1, Some merged) ->
        merged = SRef (length h) /\ take (length h) h1 = h).
Proof.
  intros Hmk h'.
  assert (forall l, l < length h -> P l -> h' !! l = h !! l) as Hkeep.
  { intros l Hl HP. unfold h'.
    destruct (invoke_st fuel urljoin toString makeRequest op this a h) as [h1 r] eqn:E.
    apply (invoke_st_keeps fuel urljoin toString makeRequest P (length h))
      with (op := op) (this := this) (a := a) (r := r); auto.
    intros rd o h0 h2 r0 Hn E0 l0 Hl0 HP0. apply (Hmk rd o h0 h2 r0 E0); [lia|auto]. }
  split; [exact Hkeep|]. split; [|split].
  - intros t -> Ht HP. unfold field, props_of. now rewrite Hkeep.
  - destruct (invoke_st fuel urljoin toString (fun _ _ => st_ret tt) op this a h)
      as [h1 r] eqn:E. cbn [fst].
    assert (forall l, l < length h -> h1 !! l = h !! l) as Hall.
    { intros l Hl.
      apply (invoke_st_keeps fuel urljoin toString (fun _ _ => st_ret tt)
               (fun _ => True) (length h))
        with (op := op) (this := this) (a := a) (r := r) (h := h); auto.
      intros rd o h0 h2 r0 _ [= <- _] l0 _ _. reflexivity. }
    now apply take_agree.
  - intros options h1 merged E. split.
    + now apply merged_options_st_result in E.
    + destruct (merged_options_st_agree fuel this options h) as [Ha _].
      rewrite E in Ha. now apply take_agree.
Qed.

Lemma operations_keep_this_options_witness :
  let h' :=
    (invoke_st 4 sample_urljoin_st sample_toString_st sample_makeRequest_st
       GetEndpoints (SRef 0)
       {| sarg_endpoint := SUndefined; sarg_resource := SUndefined;
          sarg_value := SUndefined; sarg_options := SStr "light" |}
       sample_heap).1 in
  (forall l, l < 3 -> h' !! l = sample_heap !! l)
  /\ field h' (SRef 0) "options" = SRef 1.
Proof.
  cbv zeta.
  destruct (operations_keep_this_options 4 sample_urljoin_st sample_toString_st
              sample_makeRequest_st (fun _ => True) GetEndpoints (SRef 0)
              {| sarg_endpoint := SUndefined; sarg_resource := SUndefined;
                 sarg_value := SUndefined; sarg_options := SStr "light" |}
              sample_heap) as (Hkeep & Hopts & _ & _).
  - intros rd o h0 h1 r. unfold sample_makeRequest_st, st_bind, st_new, st_ret.
    cbn [alloc]. intros [= <- _] l Hl _. now apply lookup_app_l.
  - split.
    + intros l Hl. apply Hkeep; [exact Hl | exact I].
    + rewrite (Hopts 0 eq_refl); [reflexivity | cbn; lia | exact I].
Defined.

(** The run of the sample call: the merged options are the new object at
    location 5, with a copy of [parameters] at location 6 that the query
    string of the request shares. *)
Example getEndpoints_st_sample :
  invoke_st 4 sample_urljoin_st sample_toString_st sample_makeRequest_st
    GetEndpoints (SRef 0)
    {| sarg_endpoint := SUndefined; sarg_resource := SUndefined;
       sarg_value := SUndefined; sarg_options := SStr "light" |}
    sample_heap
  = (sample_heap ++
     [ {| obj_kind := Plain; obj_props := [("type", SStr "light")] |};
       {| obj_kind := Plain; obj_props := [("parameters", SRef 3)] |};
       {| obj_kind := Plain;
          obj_props := [ ("host", SStr "https://api.connector.mbed.com");
                         ("restApiVersion", SStr "v2"); ("parameters", SRef 6) ] |};
       {| obj_kind := Plain;
          obj_props := [("cacheOnly", SBool true); ("type", SStr "light")] |};
       {| obj_kind := Plain; obj_props := [("accept", SStr "application/json")] |};
       {| obj_kind := Plain;
          obj_props := [ ("method", SStr "GET");
                         ("url", SStr "https://api.connector.mbed.com/v2/endpoints");
                         ("headers", SRef 7); ("qs", SRef 6) ] |};
       {| obj_kind := Instance;
          obj_props := [("request", SRef 8); ("options", SRef 5)] |} ],
     Some tt).
Proof. reflexivity. Qed.

(** On the sample call, the object that the store holds as merged options is
    the one that the merge of values computes. *)
Example getEndpoints_st_sample_merged :
  let h' :=
    (invoke_st 4 sample_urljoin_st sample_toString_st sample_makeRequest_st
       GetEndpoints (SRef 0)
       {| sarg_endpoint := SUndefined; sarg_resource := SUndefined;
          sarg_value := SUndefined; sarg_options := SStr "light" |}
       sample_heap).1 in
  reify 3 sample_heap (SRef 1) = this_options sample_api
  /\ reify 3 h' (SRef 5)
     = merged_options sample_api
         (VObj Plain [("parameters", VObj Plain [("type", VStr "light")])]).
Proof. split; reflexivity. Qed.

(** * Further properties of the operations *)

(** ** What a completion does to the callback *)

(** X1. Without a function as callback, a completion calls nothing and
    throws nothing, whatever the error and the data are; the call itself
    can only have thrown before its request was made. *)
Theorem no_callback_no_call
    urljoin JSON_parse toString makeRequest op this a error data :
  typeof_function (arg_callback a) = false ->
  completes_with makeRequest error data ->
  invoke urljoin JSON_parse toString makeRequest op this a = Ok []
  \/ exists e,
       forall makeRequest',
         invoke urljoin JSON_parse toString makeRequest' op this a = Throw e.
Proof.
  intros Hcb Hdone.
  destruct (issues_request_or_throw urljoin JSON_parse toString op this a)
    as [Hreq|Hthrow]; [left | right; exact Hthrow].
  now apply invoke_without_callback with (error := error) (data := data).
Qed.

Lemma no_callback_no_call_witness :
  invoke sample_urljoin sample_JSON_parse sample_toString
    (completing VNull VUndefined) GetEndpoints sample_api
    (sample_arguments VUndefined)
  = Ok [].
Proof.
  destruct (no_callback_no_call sample_urljoin sample_JSON_parse sample_toString
              (completing VNull VUndefined) GetEndpoints sample_api
              (sample_arguments VUndefined) VNull VUndefined)
    as [Hnone|[e Hthrow]].
  - reflexivity.
  - intros rd cb o. reflexivity.
  - exact Hnone.
  - specialize (Hthrow (fun _ _ _ => Ok [])). discriminate Hthrow.
Defined.

(** X2. With a function as callback, a completion calls it at most once and
    calls nothing else: the call either throws or consists of one call of
    the callback. *)
Theorem callback_called_at_most_once
    urljoin JSON_parse toString makeRequest op this a f error data :
  arg_callback a = VFun f ->
  completes_with makeRequest error data ->
  (exists e, invoke urljoin JSON_parse toString makeRequest op this a = Throw e)
  \/ (exists args,
        invoke urljoin JSON_parse toString makeRequest op this a
        = Ok [Invoke f args]).
Proof.
  intros Hcb Hdone. destruct a as [ep res v opts cb]. cbn [arg_callback] in Hcb.
  subst cb.
  destruct op; cbn [invoke]; unfold_operations; unfold bind;
    repeat first
      [ progress cbn [typeof_function call]
      | match goal with
        | |- context [makeRequest _ _ _] => rewrite Hdone
        | |- context [match ?x with _ => _ end] => destruct x eqn:?
        end ];
    solve [left; eauto | right; eauto].
Qed.

Lemma callback_called_at_most_once_witness :
  (exists e,
     invoke sample_urljoin sample_JSON_parse sample_toString
       (completing VNull (VObj Plain [("payload", VStr "{")])) GetEndpoints
       sample_api (sample_arguments (VFun 0))
     = Throw e)
  \/ (exists args,
        invoke sample_urljoin sample_JSON_parse sample_toString
          (completing VNull (VObj Plain [("payload", VStr "{")])) GetEndpoints
          sample_api (sample_arguments (VFun 0))
        = Ok [Invoke 0 args]).
Proof.
  apply (callback_called_at_most_once sample_urljoin sample_JSON_parse
           sample_toString (completing VNull (VObj Plain [("payload", VStr "{")]))
           GetEndpoints sample_api (sample_arguments (VFun 0)) 0 VNull
           (VObj Plain [("payload", VStr "{")])).
  - reflexivity.
  - intros rd cb o. reflexivity.
Defined.







(** X6. [getResourceValue] hands the payload over as it is, [undefined]
    when the data have none; [getEndpointSubscriptions] needs a string and
    throws a [TypeError] when the data have no payload. *)
Theorem payload_as_it_is
    urljoin makeRequest this endpoint endpoint' resource options f error data payload :
  completes_with makeRequest error data ->
  truthy error = false ->
  member data "payload" = Ok payload ->
  (endpoint_name endpoint = Ok endpoint' ->
   getResourceValue urljoin makeRequest this endpoint resource options (VFun f)
   = Ok [Invoke f [VNull; payload]])
  /\ (payload = VUndefined ->
      getEndpointSubscriptions urljoin makeRequest this endpoint options (VFun f)
      = Throw TypeError).
Proof.
  intros Hdone Ht Hp. split.
  - intros Hep. unfold getResourceValue. rewrite Hep. cbn [bind].
    rewrite Hdone. cbn [typeof_function]. rewrite Ht, Hp. reflexivity.
  - intros ->. unfold getEndpointSubscriptions.
    rewrite Hdone. cbn [typeof_function]. rewrite Ht, Hp. reflexivity.
Qed.

Lemma payload_as_it_is_witness :
  getResourceValue sample_urljoin (completing VNull (VObj Plain []))
    sample_api (VStr "dev1") (VStr "/3/0/1") VUndefined (VFun 0)
  = Ok [Invoke 0 [VNull; VUndefined]]
  /\ getEndpointSubscriptions sample_urljoin (completing VNull (VObj Plain []))
       sample_api (VStr "dev1") VUndefined (VFun 0)
     = Throw TypeError.
Proof.
  split.
  - apply (payload_as_it_is sample_urljoin (completing VNull (VObj Plain []))
             sample_api (VStr "dev1") (VStr "dev1") (VStr "/3/0/1") VUndefined 0
             VNull (VObj Plain []) VUndefined).
    + intros rd cb o. reflexivity.
    + reflexivity.
    + reflexivity.
    + reflexivity.
  - apply (payload_as_it_is sample_urljoin (completing VNull (VObj Plain []))
             sample_api (VStr "dev1") (VStr "dev1") (VStr "/3/0/1") VUndefined 0
             VNull (VObj Plain []) VUndefined).
    + intros rd cb o. reflexivity.
    + reflexivity.
    + reflexivity.
    + reflexivity.
Defined.

(** ** How a request is put together *)

Lemma endpoint_name_named k ps :
  truthy (get "name" ps) = true ->
  endpoint_name (VObj k ps) = Ok (get "name" ps).
Proof.
  intros Ht. unfold endpoint_name. cbn [typeof_object member bind].
  unfold get_prop. cbn [enum_props]. now rewrite Ht.
Qed.

Lemma endpoint_name_not_object v :
  typeof_object v = false -> endpoint_name v = Ok v.
Proof. intros H. unfold endpoint_name. now rewrite H. Qed.

(** X7. An endpoint given as an object with a name stands for that name;
    [null], whose [typeof] is ['object'] too, makes the call throw before
    any request is made. *)
Theorem endpoint_object_stands_for_its_name
    urljoin JSON_parse toString op this a :
  normalises_endpoint op = true ->
  (forall k ps,
     arg_endpoint a = VObj k ps ->
     truthy (get "name" ps) = true ->
     typeof_object (get "name" ps) = false ->
     forall makeRequest,
       invoke urljoin JSON_parse toString makeRequest op this a
       = invoke urljoin JSON_parse toString makeRequest op this
           (with_endpoint a (get "name" ps)))
  /\ (arg_endpoint a = VNull ->
      forall makeRequest,
        invoke urljoin JSON_parse toString makeRequest op this a = Throw TypeError).
Proof.
  intros Hop. destruct a as [ep res v opts cb]. cbn [arg_endpoint]. split.
  - intros k ps -> Ht Hno mk.
    pose proof (endpoint_name_named k ps Ht) as Hobj.
    pose proof (endpoint_name_not_object _ Hno) as Hname.
    destruct op; try discriminate Hop;
      cbn [invoke with_endpoint arg_resource arg_value arg_options arg_callback];
      unfold getResources, getResourceValue, putResourceValue, postResource,
        deleteEndpoint; now rewrite Hobj, Hname.
  - intros -> mk. destruct op; try discriminate Hop; reflexivity.
Qed.

Lemma endpoint_object_stands_for_its_name_witness :
  (forall makeRequest,
     getResourceValue sample_urljoin makeRequest sample_api
       (VObj Plain [("name", VStr "dev1"); ("type", VStr "light")])
       (VStr "/3/0/1") VUndefined (VFun 0)
     = getResourceValue sample_urljoin makeRequest sample_api
         (VStr "dev1") (VStr "/3/0/1") VUndefined (VFun 0))
  /\ (forall makeRequest,
        deleteEndpoint sample_urljoin makeRequest sample_api VNull VUndefined (VFun 0)
        = Throw TypeError).
Proof.
  split.
  - intros mk.
    apply (proj1 (endpoint_object_stands_for_its_name sample_urljoin
                    sample_JSON_parse sample_toString GetResourceValue sample_api
                    {| arg_endpoint :=
                         VObj Plain [("name", VStr "dev1"); ("type", VStr "light")];
                       arg_resource := VStr "/3/0/1"; arg_value := VUndefined;
                       arg_options := VUndefined; arg_callback := VFun 0 |}
                    eq_refl) Plain
             [("name", VStr "dev1"); ("type", VStr "light")]
             eq_refl eq_refl eq_refl mk).
  - intros mk.
    apply (proj2 (endpoint_object_stands_for_its_name sample_urljoin
                    sample_JSON_parse sample_toString DeleteEndpoint sample_api
                    {| arg_endpoint := VNull; arg_resource := VUndefined;
                       arg_value := VUndefined; arg_options := VUndefined;
                       arg_callback := VFun 0 |}
                    eq_refl) eq_refl mk).
Defined.

(** X8. [postResource] sends a body for a truthy value only: with [0], [""],
    [false], [null] or [undefined] the request has no [body] at all.
    [putResourceValue] always sends [value.toString()], and when that throws
    the call throws before any request is made. *)
Theorem request_body
    urljoin toString this endpoint endpoint' resource value options callback :
  endpoint_name endpoint = Ok endpoint' ->
  (truthy value = false ->
   exists requestData handler,
     (forall makeRequest,
        postResource urljoin toString makeRequest this endpoint resource value
          options callback
        = makeRequest requestData handler (merged_options this options))
     /\ "body" ∉ keys (enum_props requestData))
  /\ (truthy value = true ->
      forall body, toString value = Ok body ->
      exists requestData handler,
        (forall makeRequest,
           postResource urljoin toString makeRequest this endpoint resource value
             options callback
           = makeRequest requestData handler (merged_options this options))
        /\ get_prop requestData "body" = body)
  /\ (forall body, toString value = Ok body ->
      exists requestData handler,
        (forall makeRequest,
           putResourceValue urljoin toString makeRequest this endpoint resource
             value options callback
           = makeRequest requestData handler (merged_options this options))
        /\ get_prop requestData "body" = body)
  /\ (forall e, toString value = Throw e ->
      forall makeRequest,
        putResourceValue urljoin toString makeRequest this endpoint resource
          value options callback
        = Throw e).
Proof.
  intros Hep. split; [|split; [|split]].
  - intros Ht. unfold postResource. rewrite Hep, Ht. cbn [bind].
    do 2 eexists. split; [intros mk; reflexivity|].
    cbn [enum_props keys fmap list_fmap fst].
    apply (bool_decide_unpack _). vm_compute. exact I.
  - intros Ht body Hbody. unfold postResource. rewrite Hep, Ht. cbn [bind].
    rewrite Hbody. cbn [bind].
    do 2 eexists. split; [intros mk; reflexivity | reflexivity].
  - intros body Hbody. unfold putResourceValue. rewrite Hep. cbn [bind].
    rewrite Hbody. cbn [bind].
    do 2 eexists. split; [intros mk; reflexivity | reflexivity].
  - intros e He mk. unfold putResourceValue. rewrite Hep. cbn [bind].
    now rewrite He.
Qed.

Lemma request_body_witness :
  (exists requestData handler,
     (forall makeRequest,
        postResource sample_urljoin sample_toString makeRequest sample_api
          (VStr "dev1") (VStr "/3/0/1") (VNum 0) VUndefined (VFun 0)
        = makeRequest requestData handler (merged_options sample_api VUndefined))
     /\ "body" ∉ keys (enum_props requestData))
  /\ (exists requestData handler,
        (forall makeRequest,
           putResourceValue sample_urljoin sample_toString makeRequest sample_api
             (VStr "dev1") (VStr "/3/0/1") (VNum 0) VUndefined (VFun 0)
           = makeRequest requestData handler (merged_options sample_api VUndefined))
        /\ get_prop requestData "body" = VStr "0").
Proof.
  destruct (request_body sample_urljoin sample_toString sample_api (VStr "dev1")
              (VStr "dev1") (VStr "/3/0/1") (VNum 0) VUndefined (VFun 0) eq_refl)
    as (Hpost & _ & Hput & _).
  split.
  - apply Hpost. reflexivity.
  - apply Hput. reflexivity.
Defined.

Lemma merged_value_falsy src copy :
  truthy copy = false ->
  merged_value src copy = match copy with VUndefined => src | _ => copy end.
Proof. destruct copy as [| | | | | |[] ps]; try discriminate; reflexivity. Qed.

(** X9. [getEndpoints] sends a query string only when the merged options
    have truthy [parameters]: with no parameters on either side, or with
    per-call parameters that are falsy ([null], say), the request has no
    [qs] at all. *)
Theorem getEndpoints_without_query
    urljoin JSON_parse this options callback :
  typeof_string options = false ->
  well_formed (this_options this) ->
  well_formed options ->
  let defaults := get_prop (this_options this) "parameters" in
  let overrides := get_prop (or_else options (VObj Plain [])) "parameters" in
  (overrides = VUndefined /\ truthy defaults = false)
  \/ (overrides <> VUndefined /\ truthy overrides = false) ->
  exists requestData handler,
    (forall makeRequest,
       getEndpoints urljoin JSON_parse makeRequest this options callback
       = makeRequest requestData handler (merged_options this options))
    /\ "qs" ∉ keys (enum_props requestData).
Proof.
  intros Hstr Hthis Hopt defaults overrides Hcase.
  assert (truthy (get_prop (merged_options this options) "parameters") = false)
    as Hfalsy.
  { rewrite merged_options_get by assumption. fold defaults overrides.
    destruct Hcase as [[Hu Ht] | [Hu Ht]].
    - rewrite Hu. cbn [merged_value]. rewrite merged_value_falsy by assumption.
      now destruct defaults.
    - rewrite merged_value_falsy by assumption. now destruct overrides. }
  unfold getEndpoints. rewrite Hstr, Hfalsy.
  do 2 eexists. split; [intros mk; reflexivity|].
  cbn [enum_props keys fmap list_fmap fst].
  apply (bool_decide_unpack _). vm_compute. exact I.
Qed.

Lemma getEndpoints_without_query_witness :
  exists requestData handler,
    (forall makeRequest,
       getEndpoints sample_urljoin sample_JSON_parse makeRequest sample_api
         (VObj Plain [("parameters", VNull)]) (VFun 0)
       = makeRequest requestData handler
           (merged_options sample_api (VObj Plain [("parameters", VNull)])))
    /\ "qs" ∉ keys (enum_props requestData).
Proof.
  apply (getEndpoints_without_query sample_urljoin sample_JSON_parse sample_api
           (VObj Plain [("parameters", VNull)]) (VFun 0)).
  - reflexivity.
  - cbn. repeat split; apply (bool_decide_unpack _); vm_compute; exact I.
  - cbn. repeat split; apply (bool_decide_unpack _); vm_compute; exact I.
  - right. split; [discriminate | reflexivity].
Defined.

(** ** The uri-list, back and forth *)

Lemma split_newline_no_newline x : has_newline x = false -> split_newline x = [x].
Proof.
  induction x as [|c x IH]; [reflexivity|]. cbn [has_newline split_newline].
  intros H. apply orb_false_iff in H as [Hc Hx]. rewrite Hc, (IH Hx). reflexivity.
Qed.

Lemma split_newline_append x s :
  has_newline x = false ->
  split_newline (x +:+ String newline s) = x :: split_newline s.
Proof.
  induction x as [|c x IH]; intros H.
  - reflexivity.
  - cbn [has_newline] in H. apply orb_false_iff in H as [Hc Hx].
    rewrite append_cons. cbn [split_newline]. rewrite Hc, (IH Hx). reflexivity.
Qed.

Lemma split_join_newline uris :
  uris <> [] -> Forall (fun uri => has_newline uri = false) uris ->
  split_newline (join_newline uris) = uris.
Proof.
  induction uris as [|x rest IH]; intros Hne Hall; [contradiction|].
  apply Forall_cons in Hall as [Hx Hrest].
  destruct rest as [|y rest].
  - now apply split_newline_no_newline.
  - rewrite join_newline_cons, split_newline_append by assumption.
    f_equal. now apply IH.
Qed.

(** X10. The uri-list comes back as it was written: for a non-empty list of
    uris without newlines, sent one per line with a newline after the last,
    the callback of [getEndpointSubscriptions] receives exactly that list. *)
Theorem getEndpointSubscriptions_round_trip
    urljoin makeRequest this endpoint options f error data uris :
  completes_with makeRequest error data ->
  truthy error = false ->
  uris <> [] ->
  Forall (fun uri => has_newline uri = false) uris ->
  member data "payload" = Ok (VStr (join_newline uris +:+ String newline "")) ->
  getEndpointSubscriptions urljoin makeRequest this endpoint options (VFun f)
  = Ok [Invoke f [VNull; js_array (VStr <$> uris)]].
Proof.
  intros Hdone Ht Hne Hall Hp.
  rewrite (getEndpointSubscriptions_list urljoin makeRequest error data Hdone
             this endpoint options f _ Ht Hp).
  now rewrite replace_trailing_newline_append, split_join_newline.
Qed.

Lemma getEndpointSubscriptions_round_trip_witness :
  getEndpointSubscriptions sample_urljoin
    (completing VNull
       (VObj Plain
          [("payload",
            VStr (join_newline ["/3/0/1"; "/3/0/2"] +:+ String newline ""))]))
    sample_api (VStr "dev1") VUndefined (VFun 0)
  = Ok [Invoke 0 [VNull; js_array [VStr "/3/0/1"; VStr "/3/0/2"]]].
Proof.
  apply (getEndpointSubscriptions_round_trip sample_urljoin
           (completing VNull
              (VObj Plain
                 [("payload",
                   VStr (join_newline ["/3/0/1"; "/3/0/2"] +:+ String newline ""))]))
           sample_api (VStr "dev1") VUndefined 0 VNull
           (VObj Plain
              [("payload",
                VStr (join_newline ["/3/0/1"; "/3/0/2"] +:+ String newline ""))])
           ["/3/0/1"; "/3/0/2"]).
  - intros rd cb o. reflexivity.
  - reflexivity.
  - discriminate.
  - repeat constructor.
  - reflexivity.
Defined.

(** ** More on the merged options *)

Lemma merged_value_defined src copy :
  src <> VUndefined \/ copy <> VUndefined -> merged_value src copy <> VUndefined.
Proof.
  intros H. destruct copy as [| | | | | |[] ps]; cbn [merged_value];
    try discriminate; try (rewrite extend_deep_fold; discriminate).
  destruct H as [H|H]; [exact H | contradiction].
Qed.

(** X11. The merge never loses a key: a key that has a value in the
    instance defaults or in the per-call options has one in the merged
    options; no per-call options can take a default away. *)
Theorem merged_options_keep_keys this options name :
  well_formed (this_options this) ->
  well_formed options ->
  get_prop (this_options this) name <> VUndefined
  \/ get_prop (or_else options (VObj Plain [])) name <> VUndefined ->
  get_prop (merged_options this options) name <> VUndefined.
Proof.
  intros Hthis Hopt Hdef. rewrite merged_options_get by assumption.
  apply merged_value_defined. destruct Hdef as [Hd|Hd]; [left | now right].
  apply merged_value_defined. now right.
Qed.

Lemma merged_options_keep_keys_witness :
  get_prop (merged_options sample_api (VObj Plain [("accessKey", VStr "secret")]))
    "host" <> VUndefined
  /\ get_prop (merged_options sample_api (VObj Plain [("accessKey", VStr "secret")]))
       "accessKey" <> VUndefined.
Proof.
  split.
  - apply (merged_options_keep_keys sample_api
             (VObj Plain [("accessKey", VStr "secret")]) "host").
    + cbn. repeat split; apply (bool_decide_unpack _); vm_compute; exact I.
    + cbn. repeat split; apply (bool_decide_unpack _); vm_compute; exact I.
    + left. discriminate.
  - apply (merged_options_keep_keys sample_api
             (VObj Plain [("accessKey", VStr "secret")]) "accessKey").
    + cbn. repeat split; apply (bool_decide_unpack _); vm_compute; exact I.
    + cbn. repeat split; apply (bool_decide_unpack _); vm_compute; exact I.
    + right. discriminate.
Defined.

(** ** More on the store *)

Lemma owned_closed_length h : owned_closed (length h) h.
Proof. intros l o Hl Hlook. apply lookup_lt_Some in Hlook. lia. Qed.

Lemma props_ok_nil n h : props_ok n h [].
Proof. intros nm l Hin. now apply elem_of_nil in Hin. Qed.

(** The store that the merge of the options starts from: the new target,
    and a new empty object when the per-call options are falsy. *)
Lemma merge_start_grows h options :
  let h1 := h ++ [{| obj_kind := Plain; obj_props := [] |}] in
  let h2 := if struthy options then h1
            else h1 ++ [{| obj_kind := Plain; obj_props := [] |}] in
  grows (length h) h h2.
Proof.
  cbv zeta.
  assert (grows (length h) h (h ++ [{| obj_kind := Plain; obj_props := [] |}])) as Hg1.
  { apply (grows_alloc (length h) h {| obj_kind := Plain; obj_props := [] |});
      [lia | apply owned_closed_length | apply props_ok_nil]. }
  destruct (struthy options); [exact Hg1|].
  eapply grows_trans; [exact Hg1|].
  apply (grows_alloc (length h) _ {| obj_kind := Plain; obj_props := [] |});
    [rewrite length_app; lia | apply Hg1 | apply props_ok_nil].
Qed.

Lemma merged_options_st_unfold fuel this options h :
  let h1 := h ++ [{| obj_kind := Plain; obj_props := [] |}] in
  let h2 := if struthy options then h1
            else h1 ++ [{| obj_kind := Plain; obj_props := [] |}] in
  let options' := if struthy options then options else SRef (length h1) in
  merged_options_st fuel this options h
  = ((extend_st fuel h2 (length h) [field h1 this "options"; options']).1,
     if (extend_st fuel h2 (length h) [field h1 this "options"; options']).2
     then Some (SRef (length h)) else None).
Proof.
  cbv zeta. unfold merged_options_st, st_bind, st_new, st_read, st_ret.
  cbn [alloc]. destruct (struthy options); cbn [alloc];
    match goal with |- context [extend_st ?f ?x ?t ?s] =>
      destruct (extend_st f x t s) as [h3 []] end; reflexivity.
Qed.



Example merged_options_share_nothing_sample :
  let h1 := (merged_options_st 3 (SRef 0) SUndefined sample_heap).1 in
  field h1 (SRef 1) "parameters" = SRef 2
  /\ field h1 (SRef 3) "parameters" = SRef 5
  /\ h1 !! 5 = sample_heap !! 2.
Proof. repeat split. Qed.

Section Cyclic.

(** A plain object at [l], older than [n], that holds itself under [name]. *)
Variable n l : nat.
Variable o : object.
Variable name : string.
Hypothesis old : l < n.
Hypothesis plain : obj_kind o = Plain.
Hypothesis itself : assoc name (obj_props o) = Some (SRef l).

Variable extend : heap -> nat -> list sval -> heap * bool.
Hypothesis extend_writes_above : writes_above n extend.
Hypothesis extend_runs_out :
  forall h target,
    n <= length h -> n <= target -> owned_closed n h -> h !! l = Some o ->
    (extend h target [SRef l]).2 = false.

Lemma extend_name_cyclic h target :
  n <= length h -> n <= target -> owned_closed n h -> h !! l = Some o ->
  (extend_name extend target (SRef l) name h).2 = false.
Proof.
  intros Hn Ht Hc Ho. unfold extend_name.
  assert (field h (SRef l) name = SRef l) as ->.
  { unfold field, props_of. rewrite Ho. cbn. now rewrite itself. }
  assert (sval_eqb (SRef target) (SRef l) = false) as ->.
  { cbn. apply Nat.eqb_neq. lia. }
  assert (has_kind h Plain (SRef l) = true) as ->.
  { unfold has_kind. rewrite Ho. cbn. now rewrite plain. }
  cbn [orb].
  set (k := if has_kind h Array (SRef l) then Array else Plain).
  assert (k = Plain \/ k = Array) as Hk.
  { unfold k. destruct (has_kind h Array _); auto. }
  destruct (clone_for_grows n h k target name Hn Hc Ht Hk) as [Hg Hclone].
  destruct (clone_for h k (field h (SRef target) name)) as [h1 clone].
  cbn [fst snd] in Hg, Hclone.
  assert ((extend h1 clone [SRef l]).2 = false) as Hout.
  { apply extend_runs_out; try assumption.
    - destruct Hg as (_ & ? & _). lia.
    - apply Hg.
    - destruct Hg as (Ha & _). rewrite Ha by assumption. exact Ho. }
  destruct (extend h1 clone [SRef l]) as [h2 ok]. cbn [snd] in Hout.
  now rewrite Hout.
Qed.

Lemma extend_names_cyclic names target : forall h,
  n <= length h -> n <= target -> owned_closed n h -> h !! l = Some o ->
  name ∈ names ->
  (extend_names extend target (SRef l) names h).2 = false.
Proof.
  induction names as [|nm names IH]; intros h Hn Ht Hc Ho Hin.
  - now apply elem_of_nil in Hin.
  - cbn [extend_names].
    pose proof (extend_name_grows n extend target (SRef l) nm h
                  extend_writes_above Hn Ht Hc) as Hg.
    destruct (decide (nm = name)) as [->|Hne].
    + pose proof (extend_name_cyclic h target Hn Ht Hc Ho) as Hout.
      destruct (extend_name extend target (SRef l) name h) as [h1 ok].
      cbn [snd] in Hout. now rewrite Hout.
    + destruct (extend_name extend target (SRef l) nm h) as [h1 ok].
      cbn [fst] in Hg. destruct ok; [|reflexivity].
      apply IH.
      * destruct Hg as (_ & ? & _). lia.
      * assumption.
      * apply Hg.
      * destruct Hg as (Ha & _). rewrite Ha by assumption. exact Ho.
      * apply elem_of_cons in Hin as [Heq|Hin]; [congruence | exact Hin].
Qed.

Lemma extend_sources_cyclic sources target : forall h,
  n <= length h -> n <= target -> owned_closed n h -> h !! l = Some o ->
  SRef l ∈ sources ->
  (extend_sources extend target sources h).2 = false.
Proof.
  induction sources as [|options sources IH]; intros h Hn Ht Hc Ho Hin.
  - now apply elem_of_nil in Hin.
  - cbn [extend_sources].
    assert (grows n h
              (match options with
               | SUndefined | SNull => (h, true)
               | _ => extend_names extend target options
                        (fst <$> props_of h options) h
               end).1) as Hg.
    { destruct options; try (now apply grows_refl);
        now apply extend_names_grows. }
    assert (options = SRef l ->
            (match options with
             | SUndefined | SNull => (h, true)
             | _ => extend_names extend target options
                      (fst <$> props_of h options) h
             end).2 = false) as Hself.
    { intros ->. apply extend_names_cyclic; try assumption.
      unfold props_of. rewrite Ho. cbn [from_option].
      apply assoc_elem_of in itself.
      apply (list_elem_of_fmap_2 fst) in itself. exact itself. }
    destruct (match options with
              | SUndefined | SNull => (h, true)
              | _ => extend_names extend target options
                       (fst <$> props_of h options) h
              end) as [h1 ok].
    cbn [fst snd] in Hg, Hself. destruct ok; [|reflexivity].
    apply elem_of_cons in Hin as [Heq|Hin].
    + symmetry in Heq. specialize (Hself Heq). discriminate.
    + apply IH; try assumption.
      * destruct Hg as (_ & ? & _). lia.
      * apply Hg.
      * destruct Hg as (Ha & _). rewrite Ha by assumption. exact Ho.
Qed.

End Cyclic.

(** With a source that holds itself, the merge runs out of any fuel. *)
Lemma extend_st_cyclic n l o name fuel :
  l < n -> obj_kind o = Plain -> assoc name (obj_props o) = Some (SRef l) ->
  forall h target sources,
    n <= length h -> n <= target -> owned_closed n h -> h !! l = Some o ->
    SRef l ∈ sources ->
    (extend_st fuel h target sources).2 = false.
Proof.
  intros Hold Hplain Hself.
  induction fuel as [|fuel IH]; intros h target sources Hn Ht Hc Ho Hin.
  - reflexivity.
  - cbn [extend_st].
    apply (extend_sources_cyclic n l o name Hold Hplain Hself (extend_st fuel));
      try assumption.
    + apply extend_st_writes_above.
    + intros h' target' Hn' Ht' Hc' Ho'. apply IH; try assumption.
      apply list_elem_of_singleton. reflexivity.
Qed.

Lemma merged_options_st_cyclic fuel this l o name h :
  h !! l = Some o -> obj_kind o = Plain ->
  assoc name (obj_props o) = Some (SRef l) ->
  (merged_options_st fuel this (SRef l) h).2 = None.
Proof.
  intros Ho Hplain Hself. rewrite merged_options_st_unfold. cbn [struthy snd].
  pose proof (merge_start_grows h (SRef l)) as Hg. cbv zeta in Hg.
  cbn [struthy] in Hg.
  rewrite (extend_st_cyclic (length h) l o name fuel); try assumption.
  - reflexivity.
  - eapply lookup_lt_Some; eauto.
  - destruct Hg as (_ & ? & _). assumption.
  - lia.
  - apply Hg.
  - apply lookup_app_l_Some. exact Ho.
  - right. left.
Qed.

Lemma st_bind_stops {A B} (m : St A) (f : A -> St B) h :
  (m h).2 = None -> st_bind m f h = ((m h).1, None).
Proof. unfold st_bind. destruct (m h) as [h' [a|]]; [discriminate | reflexivity]. Qed.

Lemma endpoint_name_st_store endpoint h : (endpoint_name_st endpoint h).1 = h.
Proof. destruct endpoint; reflexivity. Qed.

(** X13. Per-call options that hold themselves are never merged: the deep
    merge goes round and round (the fuel runs out however much there is; in
    JavaScript the stack overflows), and the call ends without a request,
    whatever [makeRequest] is. *)
Theorem cyclic_options_issue_no_request
    fuel urljoin toString op this a h l o name :
  sarg_options a = SRef l ->
  h !! l = Some o ->
  obj_kind o = Plain ->
  assoc name (obj_props o) = Some (SRef l) ->
  exists h',
    forall makeRequest,
      invoke_st fuel urljoin toString makeRequest op this a h = (h', None).
Proof.
  intros Hopt Ho Hplain Hself.
  destruct a as [endpoint resource value options]. cbn [sarg_options] in Hopt.
  subst options.
  pose proof (merged_options_st_cyclic fuel this l o name h Ho Hplain Hself) as Hstop.
  destruct op; cbn [invoke_st];
    unfold getResourceSubscription_st, putResourceSubscription_st,
      deleteResourceSubscription_st, getEndpointSubscriptions_st,
      deleteEndpointSubscriptions_st, deleteAllSubscriptions_st,
      getPreSubscription_st, putPreSubscription_st, getEndpoints_st,
      getResources_st, getResourceValue_st, putResourceValue_st,
      postResource_st, deleteEndpoint_st;
    try (eexists; intros mk; now rewrite st_bind_stops);
    try (eexists; intros mk; unfold st_bind at 1; cbn [st_ret];
         now rewrite st_bind_stops).
  all: pose proof (endpoint_name_st_store endpoint h) as Hsame;
    destruct (endpoint_name_st endpoint h) as [h0 [endpoint'|]] eqn:Hep;
    cbn [fst] in Hsame; subst h0;
    [ exists (merged_options_st fuel this (SRef l) h).1; intros mk;
      unfold st_bind at 1; rewrite Hep; now rewrite st_bind_stops
    | exists h; intros mk; unfold st_bind at 1; now rewrite Hep ].
Qed.

Lemma cyclic_options_issue_no_request_witness :
  exists h',
    forall makeRequest,
      invoke_st 100 sample_urljoin_st sample_toString_st makeRequest
        GetResourceSubscription (SRef 0)
        {| sarg_endpoint := SStr "dev1"; sarg_resource := SStr "/3/0/1";
           sarg_value := SUndefined; sarg_options := SRef 3 |}
        (sample_heap ++ [{| obj_kind := Plain; obj_props := [("self", SRef 3)] |}])
      = (h', None).
Proof.
  apply (cyclic_options_issue_no_request 100 sample_urljoin_st sample_toString_st
           GetResourceSubscription (SRef 0)
           {| sarg_endpoint := SStr "dev1"; sarg_resource := SStr "/3/0/1";
              sarg_value := SUndefined; sarg_options := SRef 3 |}
           (sample_heap ++ [{| obj_kind := Plain; obj_props := [("self", SRef 3)] |}])
           3 {| obj_kind := Plain; obj_props := [("self", SRef 3)] |} "self").
  - reflexivity.
  - reflexivity.
  - reflexivity.
  - reflexivity.
Defined.

(** ** Requests that go together *)


(** X15. The requests on one resource go together as well: GET, PUT and POST
    of its value address the same URL and carry the same query string, the
    [parameters] of the merged options; so do GET of the resources of an
    endpoint and DELETE of the endpoint, on the URL of the endpoint. *)
Theorem resource_requests_share_url
    urljoin JSON_parse toString this endpoint endpoint' resource value body
    options callback :
  endpoint_name endpoint = Ok endpoint' ->
  toString value = Ok body ->
  let effective := merged_options this options in
  (exists url get put post h1 h2 h3,
     (forall makeRequest,
        getResourceValue urljoin makeRequest this endpoint resource options callback
        = makeRequest get h1 effective)
     /\ (forall makeRequest,
           putResourceValue urljoin toString makeRequest this endpoint resource value
             options callback = makeRequest put h2 effective)
     /\ (forall makeRequest,
           postResource urljoin toString makeRequest this endpoint resource value
             options callback = makeRequest post h3 effective)
     /\ get_prop get "url" = url /\ get_prop put "url" = url
     /\ get_prop post "url" = url
     /\ get_prop get "qs" = get_prop effective "parameters"
     /\ get_prop put "qs" = get_prop effective "parameters"
     /\ get_prop post "qs" = get_prop effective "parameters"
     /\ get_prop get "method" = VStr "GET" /\ get_prop put "method" = VStr "PUT"
     /\ get_prop post "method" = VStr "POST")
  /\ (exists url get delete h1 h2,
        (forall makeRequest,
           getResources urljoin JSON_parse makeRequest this endpoint options callback
           = makeRequest get h1 effective)
        /\ (forall makeRequest,
              deleteEndpoint urljoin makeRequest this endpoint options callback
              = makeRequest delete h2 effective)
        /\ get_prop get "url" = url /\ get_prop delete "url" = url
        /\ get_prop get "method" = VStr "GET"
        /\ get_prop delete "method" = VStr "DELETE").
Proof.
  intros Hep Hbody effective.
  unfold getResourceValue, putResourceValue, postResource, getResources,
    deleteEndpoint.
  rewrite Hep. cbn [bind]. rewrite Hbody. cbn [bind]. split.
  - destruct (truthy value); cbn [bind];
      do 7 eexists; repeat split; try (intros mk; reflexivity); reflexivity.
  - do 5 eexists. repeat split; try (intros mk; reflexivity); reflexivity.
Qed.

Lemma resource_requests_share_url_witness :
  exists url get put,
    (forall makeRequest,
       getResourceValue sample_urljoin makeRequest sample_api (VStr "dev1")
         (VStr "/3/0/1") VUndefined (VFun 0)
       = makeRequest get
           (fun error data =>
              if truthy error then call (VFun 0) [error]
              else payload <- member data "payload";; call (VFun 0) [VNull; payload])
           (merged_options sample_api VUndefined))
    /\ (forall makeRequest,
          putResourceValue sample_urljoin sample_toString makeRequest sample_api
            (VStr "dev1") (VStr "/3/0/1") (VStr "1") VUndefined (VFun 0)
          = makeRequest put
              (fun error data =>
                 if truthy error then call (VFun 0) [error]
                 else call (VFun 0) [VNull])
              (merged_options sample_api VUndefined))
    /\ get_prop get "url" = url /\ get_prop put "url" = url
    /\ url = VStr "https://api.connector.mbed.com/v2/endpoints/dev1//3/0/1".
Proof.
  destruct (resource_requests_share_url sample_urljoin sample_JSON_parse
              sample_toString sample_api (VStr "dev1") (VStr "dev1") (VStr "/3/0/1")
              (VStr "1") (VStr "1") VUndefined (VFun 0) eq_refl eq_refl)
    as [_ _].
  do 3 eexists. repeat split; try (intros mk; reflexivity); reflexivity.
Defined.
